(** * NetCleave peptide extractor: a shallow embedding and its properties

    Source: [src/predictor/database_functions/peptide_extractor.py].

    The module is a thin pipeline over pandas.  The embedding keeps the
    shape of the Python code and replaces every pandas call it makes by a
    small executable function over an explicit table:

    - a cell is a string or [NaN] (the missing value of [read_csv]);
      columns are of object dtype.  This is pandas on files whose loaded
      columns are text columns: the inference of numeric and boolean
      dtypes, the texts that [read_csv] reads as missing ([NA], [null],
      ...), the renaming of repeated or empty header names and the
      rejection of a record longer than the header are outside the
      model, and the statements about the loader that depend on them
      take [well_formed] and [text_file] (defined below) as hypotheses;
    - a [DataFrame] is a list of column names and a list of rows, every
      row carrying its index label;
    - Python exceptions are an error value ([Raise]); [print] and the file
      read are events of a trace;
    - Python strings are modelled as 8-bit strings, [\w] and whitespace
      with their ASCII classes, which are Python's on ASCII text; the
      statements that depend on the class of a character outside a word
      or a token take it to be ASCII;
    - the operand of a condition is a string or a sequence of strings;
      where an operator meets the other kind of operand the model follows
      what pandas does with it. *)

From Stdlib Require Import Ascii String.
From stdpp Require Import gmap strings list fin_maps.

Local Open Scope string_scope.
Local Open Scope list_scope.

(** ** Exceptions and results *)

Inductive exn : Type :=
| AttributeError (attr : string)  (* 'NoneType' object has no attribute ... *)
| FileNotFoundError (path : string)
| UsecolsError                   (* usecols do not match the header *)
| KeyError (column : string)
| NonBooleanMask                 (* a mask holding NaN used as an indexer:
                                    the exception pandas raises on such a key *)
| LengthsMustMatch               (* comparison with a sequence of another length *)
| IsinNotListLike.               (* isin called with a plain string *)

Inductive result (A : Type) : Type :=
| Ok (a : A)
| Raise (e : exn).
Arguments Ok {A} a.
Arguments Raise {A} e.

#[global] Instance result_ret : MRet result := fun A a => Ok a.
#[global] Instance result_bind : MBind result := fun A B f m =>
  match m with
  | Ok a => f a
  | Raise e => Raise e
  end.

(** ** Cells, series and tables *)

Inductive cell : Type :=
| NaN
| Str (s : string).

#[global] Instance cell_eq_dec : EqDecision cell.
Proof. solve_decision. Defined.

Definition notna (x : cell) : bool :=
  match x with NaN => false | Str _ => true end.

Record DataFrame : Type := mkDataFrame {
  columns : list string;
  rows : list (nat * list cell)
}.

(** Position of a column label in the header. *)
Fixpoint index_of (c : string) (cols : list string) : option nat :=
  match cols with
  | [] => None
  | c' :: cs => if String.eqb c c' then Some 0 else S <$> index_of c cs
  end.

Definition cell_at (i : nat) (r : list cell) : cell := nth i r NaN.

(** [df[c]]: the values of column [c], in row order; [KeyError] when the
    column is absent.  The labels of a table are taken to be distinct:
    the position is that of the first column of that label. *)
Definition getitem (df : DataFrame) (c : string) : result (list cell) :=
  match index_of c (columns df) with
  | None => Raise (KeyError c)
  | Some i => Ok (map (fun r => cell_at i r.2) (rows df))
  end.

(** A boolean mask as pandas computes it: an entry is [None] where the
    result is NaN. *)
Definition mask := list (option bool).

Fixpoint select {A : Type} (l : list A) (m : mask) : list A :=
  match l, m with
  | x :: l', Some true :: m' => x :: select l' m'
  | _ :: l', _ :: m' => select l' m'
  | _, _ => []
  end.

Definition is_na_entry (b : option bool) : bool :=
  match b with None => true | Some _ => false end.

(** [df[m]] for a mask [m] computed from [df]: rows whose entry is True,
    labels kept; a mask with a NaN entry is refused. *)
Definition getitem_mask (df : DataFrame) (m : mask) : result DataFrame :=
  if existsb is_na_entry m then Raise NonBooleanMask
  else Ok (mkDataFrame (columns df) (select (rows df) m)).

(** ** String primitives *)

(** Python's [pat in s]. *)
Fixpoint str_in (pat s : string) : bool :=
  String.prefix pat s ||
  match s with
  | EmptyString => false
  | String _ s' => str_in pat s'
  end.

(** The operand of a condition: a string, or a sequence of strings. *)
Inductive operand : Type :=
| OStr (s : string)
| OSeq (l : list string).

(** [Series.str.contains(pat, regex=False)]: NaN stays NaN; an element on
    which [pat in x] raises (a non-string [pat]) becomes NaN as well. *)
Definition str_contains (s : list cell) (pat : operand) : mask :=
  map (fun x => match x, pat with
                | Str x, OStr p => Some (str_in p x)
                | _, _ => None
                end) s.

(** [m == False], element by element: NaN compares unequal. *)
Definition eq_False (m : mask) : mask :=
  map (fun b => Some match b with Some false => true | _ => false end) m.

Definition cell_eqb (x : cell) (v : string) : bool :=
  match x with
  | NaN => false
  | Str s => String.eqb s v
  end.

(** [s == v]: against a string, element by element; against a list,
    position by position when the lengths agree. *)
Definition series_eq (s : list cell) (v : operand) : result mask :=
  match v with
  | OStr v => Ok (map (fun x => Some (cell_eqb x v)) s)
  | OSeq l =>
      if Nat.eqb (length s) (length l)
      then Ok (zip_with (fun x v => Some (cell_eqb x v)) s l)
      else Raise LengthsMustMatch
  end.

Definition series_ne (s : list cell) (v : operand) : result mask :=
  match v with
  | OStr v => Ok (map (fun x => Some (negb (cell_eqb x v))) s)
  | OSeq l =>
      if Nat.eqb (length s) (length l)
      then Ok (zip_with (fun x v => Some (negb (cell_eqb x v))) s l)
      else Raise LengthsMustMatch
  end.

Definition str_mem (v : string) (l : list string) : bool :=
  existsb (String.eqb v) l.

(** [s.isin(values)]: a plain string is refused. *)
Definition isin (s : list cell) (values : operand) : result mask :=
  match values with
  | OStr _ => Raise IsinNotListLike
  | OSeq l => Ok (map (fun x => Some match x with
                                     | NaN => false
                                     | Str x => str_mem x l
                                     end) s)
  end.

(** ** apply_conditions *)

(** The value of an entry of the conditions dictionary: [None] or a
    pair [(condition_search, condition_value)]. *)
Definition condition : Type := string * operand.
Definition conditions : Type := list (string * option condition).

(** The body of the loop for one entry whose value is not [None]: five
    independent [if] statements, each rebinding [df]. *)
Definition apply_condition (df : DataFrame) (condition_type : string)
    (condition_values : condition) : result DataFrame :=
  let condition_search := condition_values.1 in
  let condition_value := condition_values.2 in
  df ← (if String.eqb condition_search "contains"
        then col ← getitem df condition_type;
             getitem_mask df (str_contains col condition_value)
        else Ok df);
  df ← (if String.eqb condition_search "not_contains"
        then col ← getitem df condition_type;
             getitem_mask df (eq_False (str_contains col condition_value))
        else Ok df);
  df ← (if String.eqb condition_search "match"
        then col ← getitem df condition_type;
             m ← series_eq col condition_value;
             getitem_mask df m
        else Ok df);
  df ← (if String.eqb condition_search "not_match"
        then col ← getitem df condition_type;
             m ← series_ne col condition_value;
             getitem_mask df m
        else Ok df);
  df ← (if String.eqb condition_search "is_in"
        then col ← getitem df condition_type;
             m ← isin col condition_value;
             getitem_mask df m
        else Ok df);
  Ok df.

(** [for condition_type, condition_values in conditions_dictionary.items()],
    in insertion order. *)
Fixpoint apply_conditions (df : DataFrame) (conditions_dictionary : conditions)
    : result DataFrame :=
  match conditions_dictionary with
  | [] => Ok df
  | (condition_type, condition_values) :: rest =>
      match condition_values with
      | None => apply_conditions df rest
      | Some cv =>
          df' ← apply_condition df condition_type cv;
          apply_conditions df' rest
      end
  end.

(** ** create_dictionary *)

Abbreviation PeptideMap := (gmap string (list cell)).

(** [DataFrame.drop_duplicates(keep="first")] on the projected rows;
    [seen] holds the rows already kept. *)
Fixpoint drop_duplicates_from {A : Type} `{EqDecision A}
    (seen : list A) (l : list A) : list A :=
  match l with
  | [] => []
  | x :: l' =>
      if decide (x ∈ seen) then drop_duplicates_from seen l'
      else x :: drop_duplicates_from (x :: seen) l'
  end.

Definition drop_duplicates {A : Type} `{EqDecision A} (l : list A) : list A :=
  drop_duplicates_from [] l.

(** Python's [s.split(sep)] for a one-character separator; [tok] is the
    piece being read. *)
Fixpoint split_on (sep : ascii) (tok : string) (s : string) : list string :=
  match s with
  | EmptyString => [tok]
  | String c r =>
      if Ascii.eqb c sep then tok :: split_on sep EmptyString r
      else split_on sep (tok +:+ String c EmptyString) r
  end.

(** [Series.str[-1]] on one element: the last item, NaN when there is none. *)
Definition str_last (l : list string) : cell :=
  match last l with
  | Some s => Str s
  | None => NaN
  end.

(** [.str.split("/").str[-1]] on one cell. *)
Definition protein_code (x : cell) : cell :=
  match x with
  | NaN => NaN
  | Str s => str_last (split_on "/"%char EmptyString s)
  end.

(** [groupby("uniprot_id")["peptide_sequence"].apply(list).to_dict()] over
    rows [(peptide_sequence, uniprot_id)]: rows whose key is NaN belong to
    no group; each list is in table order. *)
Definition groupby_to_dict (l : list (cell * cell)) : PeptideMap :=
  foldr (fun r (m : PeptideMap) =>
           match r.2 with
           | NaN => m
           | Str code => <[code := r.1 :: default [] (m !! code)]> m
           end) ∅ l.

Definition create_dictionary (df : DataFrame) : result PeptideMap :=
  peptide_sequence ← getitem df "peptide_sequence";
  uniprot_id ← getitem df "uniprot_id";
  let exporting_df := zip peptide_sequence uniprot_id in
  let exporting_df := drop_duplicates exporting_df in
  let exporting_df := map (fun r => (r.1, protein_code r.2)) exporting_df in
  Ok (groupby_to_dict exporting_df).

(** ** Events: [print] and the file read *)

Inductive event : Type :=
| Print (msg : string)
| ReadCsv (path : string).

Definition io (A : Type) : Type := list event * result A.

Definition io_ret {A : Type} (a : A) : io A := ([], Ok a).

Definition io_bind {A B : Type} (m : io A) (f : A → io B) : io B :=
  match m with
  | (t, Ok a) => let '(t', r) := f a in (t ++ t', r)
  | (t, Raise e) => (t, Raise e)
  end.

Definition print (msg : string) : io unit := ([Print msg], Ok tt).

Definition lift {A : Type} (r : result A) : io A := ([], r).

Declare Scope io_scope.
Delimit Scope io_scope with io.
Notation "x <~ m ;; k" := (io_bind m (fun x => k))
  (at level 100, m at next level, right associativity) : io_scope.
Notation "m ;;; k" := (io_bind m (fun _ => k))
  (at level 100, right associativity) : io_scope.

(** ** merge_peptide_data *)

(** [dict(dict1, **dict2)]: the entries of [dict1], overwritten and
    extended by those of [dict2]. *)
Definition merge_peptide_data (dict1 dict2 : PeptideMap) : io PeptideMap :=
  (print "---> Merging peptide data from IEDB and other databases...";;;
   let d := dict2 ∪ dict1 in
   io_ret d)%io.

(** ** generate_df *)

(** A parsed delimited file: the header line and the records, field by
    field, an empty field being NaN and any other field its text.  A
    record shorter than the header reads as NaN in the missing
    positions. *)
Record CsvFile : Type := mkCsvFile {
  header : list string;
  records : list (list cell)
}.

Definition FileSystem : Type := string → option CsvFile.

Definition label_rows (l : list (list cell)) : list (nat * list cell) :=
  zip (seq 0 (length l)) l.

(** Header positions kept by [usecols]: every column when [usecols] is
    absent, otherwise those named in it, in file order. *)
Definition kept_positions (hdr : list string) (usecols : option (list string))
    : list nat :=
  match usecols with
  | None => seq 0 (length hdr)
  | Some cols =>
      List.filter (fun i => match hdr !! i with
                            | Some c => str_mem c cols
                            | None => false
                            end) (seq 0 (length hdr))
  end.

Definition project (pos : list nat) (r : list cell) : list cell :=
  map (fun i => cell_at i r) pos.

(** [pd.read_csv(path, header=0, usecols=...)], on a file whose records
    are no longer than its header and whose loaded columns are text
    columns: the table holds the fields as they are. *)
Definition read_csv (fs : FileSystem) (path : string)
    (usecols : option (list string)) : io DataFrame :=
  ([ReadCsv path],
   match fs path with
   | None => Raise (FileNotFoundError path)
   | Some f =>
       if match usecols with
          | None => true
          | Some cols => forallb (fun c => str_mem c (header f)) cols
          end
       then
         let pos := kept_positions (header f) usecols in
         Ok (mkDataFrame (map (fun i => default EmptyString (header f !! i)) pos)
               (label_rows (map (project pos) (records f))))
       else Raise UsecolsError
   end).

(** [df.rename(columns={...}, inplace=True)] for the two fixed labels. *)
Definition rename_column (c : string) : string :=
  if String.eqb c "Description" then "peptide_sequence"
  else if String.eqb c "Parent.Protein.IRI" then "uniprot_id"
  else c.

Definition rename (df : DataFrame) : DataFrame :=
  mkDataFrame (map rename_column (columns df)) (rows df).

(** Rewriting one column cell by cell, in place: [df[c] = f(df[c])], and
    [df[c].replace(..., inplace=True)], which writes through to [df] (pandas
    without copy-on-write).  [KeyError] when the column is absent.  The
    column is one of strings and NaN, on which the string accessor and
    the replacement are defined. *)
Definition update_column (df : DataFrame) (c : string) (f : cell → cell)
    : result DataFrame :=
  match index_of c (columns df) with
  | None => Raise (KeyError c)
  | Some i =>
      Ok (mkDataFrame (columns df)
            (map (fun r => (r.1, <[i := f (cell_at i r.2)]> r.2)) (rows df)))
  end.

(** Whitespace, as [str.split] has it on ASCII text. *)
Definition is_space (c : ascii) : bool :=
  let n := nat_of_ascii c in
  (Nat.leb 9 n && Nat.leb n 13) || (Nat.leb 28 n && Nat.leb n 32).

(** Python's [s.split()]: the maximal runs of non-whitespace characters. *)
Fixpoint split_ws (tok : string) (s : string) : list string :=
  match s with
  | EmptyString => if String.eqb tok EmptyString then [] else [tok]
  | String c r =>
      if is_space c
      then (if String.eqb tok EmptyString then split_ws EmptyString r
            else tok :: split_ws EmptyString r)
      else split_ws (tok +:+ String c EmptyString) r
  end.

(** [.str.split().str[0]] on one cell. *)
Definition first_token (x : cell) : cell :=
  match x with
  | NaN => NaN
  | Str s => match split_ws EmptyString s with
             | t :: _ => Str t
             | [] => NaN
             end
  end.

(** A word character, as [\w] has it on ASCII text. *)
Definition is_word (c : ascii) : bool :=
  let n := nat_of_ascii c in
  (Nat.leb 48 n && Nat.leb n 57) || (Nat.leb 65 n && Nat.leb n 90)
  || (Nat.leb 97 n && Nat.leb n 122) || Nat.eqb n 95.

Definition uniprot_prefix : string := "http://www.uniprot.org/uniprot/".

(** The replacement of one match [tok] of [([\w]+)] by the template
    [http://www.uniprot.org/uniprot/\1]; nothing is matched when [tok] is
    empty. *)
Definition expand (tok : string) : string :=
  if String.eqb tok EmptyString then EmptyString else uniprot_prefix +:+ tok.

(** [re.sub("([\w]+)", r"http://www.uniprot.org/uniprot/\1", s)]: every
    leftmost maximal run of word characters is a match; [tok] is the
    match being read. *)
Fixpoint re_sub (tok : string) (s : string) : string :=
  match s with
  | EmptyString => expand tok
  | String c r =>
      if is_word c then re_sub (tok +:+ String c EmptyString) r
      else expand tok +:+ String c (re_sub EmptyString r)
  end.

(** [Series.replace(to_replace=..., value=..., regex=True)] on one cell. *)
Definition replace_regex (x : cell) : cell :=
  match x with
  | NaN => NaN
  | Str s => Str (re_sub EmptyString s)
  end.

(** [df.dropna()]. *)
Definition dropna (df : DataFrame) : DataFrame :=
  mkDataFrame (columns df) (List.filter (fun r => forallb notna r.2) (rows df)).

(** [df.reset_index(drop=True)]. *)
Definition reset_index (df : DataFrame) : DataFrame :=
  mkDataFrame (columns df) (label_rows (map snd (rows df))).

(** [conditions_dictionary.keys()] / [.items()] on a value that may be
    Python's [None]. *)
Definition dict_keys (d : option conditions) : result (list string) :=
  match d with
  | None => Raise (AttributeError "keys")
  | Some d => Ok (map fst d)
  end.

Definition dict_items (d : option conditions) : result conditions :=
  match d with
  | None => Raise (AttributeError "items")
  | Some d => Ok d
  end.

Definition generate_df (fs : FileSystem) (input_file_path : string)
    (conditions_dictionary : option conditions) (iedb : bool) : io DataFrame :=
  (df <~ (if iedb then
            usecols <~ lift (dict_keys conditions_dictionary);;
            df <~ read_csv fs input_file_path (Some usecols);;
            let df := rename df in
            lift (update_column df "peptide_sequence" first_token)
          else
            df <~ read_csv fs input_file_path None;;
            lift (update_column df "uniprot_id" replace_regex));;
   let df := dropna df in
   let df := reset_index df in
   io_ret df)%io.

(** ** extract_peptide_data *)

Definition extract_peptide_data (fs : FileSystem) (input_file_path : string)
    (conditions_dictionary : option conditions) (iedb : bool) : io PeptideMap :=
  (df_filtered <~ (if iedb then
       print "---> Extracting peptide data from IEDB...";;;
       df <~ generate_df fs input_file_path conditions_dictionary true;;
       print "---> Applying filtering conditions defined by the user...";;;
       lift (c ← dict_items conditions_dictionary; apply_conditions df c)
     else
       print "---> Extracting peptide data from other databases ...";;;
       generate_df fs input_file_path None false);;
   print "---> Creating the dictionary...";;;
   data <~ lift (create_dictionary df_filtered);;
   io_ret data)%io.

(** ** Vocabulary of the statements *)

Definition recognized (op : string) : bool :=
  str_mem op ["contains"; "not_contains"; "match"; "not_match"; "is_in"].

(** An entry that names one of the five operators carries the operand
    kind the operator expects: a string, or a sequence for [is_in]. *)
Definition well_typed (cv : condition) : bool :=
  match cv.2 with
  | OStr _ => negb (String.eqb cv.1 "is_in")
  | OSeq _ => String.eqb cv.1 "is_in" || negb (recognized cv.1)
  end.

Definition well_typed_entry (e : string * option condition) : bool :=
  match e.2 with
  | None => true
  | Some cv => well_typed cv
  end.

(** The test a well-typed condition performs on one cell. *)
Definition cell_test (cv : condition) (x : cell) : bool :=
  if String.eqb cv.1 "contains" then
    match x, cv.2 with Str s, OStr p => str_in p s | _, _ => false end
  else if String.eqb cv.1 "not_contains" then
    match x, cv.2 with Str s, OStr p => negb (str_in p s) | _, _ => false end
  else if String.eqb cv.1 "match" then
    match cv.2 with OStr v => cell_eqb x v | _ => false end
  else if String.eqb cv.1 "not_match" then
    match cv.2 with OStr v => negb (cell_eqb x v) | _ => false end
  else if String.eqb cv.1 "is_in" then
    match x, cv.2 with Str s, OSeq l => str_mem s l | _, _ => false end
  else true.

(** The rows an entry keeps, given the header of the table. *)
Definition keeps (cols : list string) (e : string * option condition)
    (r : nat * list cell) : bool :=
  match e.2 with
  | None => true
  | Some cv =>
      match index_of e.1 cols with
      | Some i => cell_test cv (cell_at i r.2)
      | None => true
      end
  end.

Definition keeps_all (cols : list string) (C : conditions)
    (r : nat * list cell) : bool :=
  forallb (fun e => keeps cols e r) C.

(** Column [c] is present and holds no NaN. *)
Definition string_column (df : DataFrame) (c : string) : bool :=
  match index_of c (columns df) with
  | Some i => forallb (fun r => notna (cell_at i r.2)) (rows df)
  | None => false
  end.

(** Every filtering entry is well typed and, when its operator is one of
    the five, names a string column of the table. *)
Definition admissible (df : DataFrame) (C : conditions) : bool :=
  forallb (fun e => match e.2 with
                    | None => true
                    | Some cv =>
                        well_typed cv &&
                        (negb (recognized cv.1) || string_column df e.1)
                    end) C.

(** [v] occurs in [s] as a block of consecutive characters. *)
Definition substring_of (v s : string) : Prop :=
  ∃ a b, s = a +:+ v +:+ b.

(** The specification [C] returns, on [df], exactly the rows whose cell
    in position [i] satisfies [P], in table order. *)
Definition filters_by (df : DataFrame) (C : conditions) (i : nat)
    (P : cell → Prop) : Prop :=
  ∃ f : nat * list cell → bool,
    (∀ r, r ∈ rows df → (f r = true ↔ P (cell_at i r.2))) ∧
    apply_conditions df C =
      Ok (mkDataFrame (columns df) (List.filter f (rows df))).

(** Entries that filter nothing: the value is [None], or the operator is
    none of the five. *)
Definition inert (e : string * option condition) : bool :=
  match e.2 with
  | None => true
  | Some cv => negb (recognized cv.1)
  end.

Fixpoint all_word (s : string) : bool :=
  match s with
  | EmptyString => true
  | String c r => is_word c && all_word r
  end.

(** The columns [read_csv] is asked for, by mode. *)
Definition usecols_of (cd : option conditions) (iedb : bool)
    : option (list string) :=
  if iedb then Some (match cd with Some d => map fst d | None => [] end)
  else None.


(** One loaded row: the kept positions of the record, with the cell in
    position [i] rewritten by [g]. *)
Definition loaded_cells (pos : list nat) (i : nat) (g : cell → cell)
    (r : list cell) : list cell :=
  <[i := g (cell_at i (project pos r))]> (project pos r).



(** The result is not the error of dereferencing [None]. *)
Definition no_attribute_error {A : Type} (r : result A) : Prop :=
  ∀ attr, r ≠ Raise (AttributeError attr).

(** ** Vocabulary of the further properties *)

Fixpoint no_slash (s : string) : bool :=
  match s with
  | EmptyString => true
  | String c r => negb (Ascii.eqb c "/") && no_slash r
  end.

Fixpoint all_space (s : string) : bool :=
  match s with
  | EmptyString => true
  | String c r => is_space c && all_space r
  end.

Fixpoint no_space (s : string) : bool :=
  match s with
  | EmptyString => true
  | String c r => negb (is_space c) && no_space r
  end.

(** The peptides of the rows [(peptide, key)] whose key is the string
    [code], in order. *)
Definition group (l : list (cell * cell)) (code : string) : list cell :=
  map fst (List.filter (fun r => cell_eqb r.2 code) l).

(** The paths read in a trace, in order. *)
Definition reads (t : list event) : list string :=
  flat_map (fun e => match e with ReadCsv p => [p] | Print _ => [] end) t.

(** ** Files on which the parser returns a table of text *)

(** The model follows the module on tables of strings.  The predicates
    below name, on the fields of a file, conditions under which
    [read_csv] returns such a table field for field; the statements about
    the loader that need them take them as hypotheses. *)

Definition ascii_char (c : ascii) : bool := Nat.ltb (nat_of_ascii c) 128.

Fixpoint ascii_text (s : string) : bool :=
  match s with
  | EmptyString => true
  | String c r => ascii_char c && ascii_text r
  end.







Fixpoint distinct (l : list string) : bool :=
  match l with
  | [] => true
  | x :: l' => negb (str_mem x l') && distinct l'
  end.

(** The header has a name per column, none empty, none repeated. *)
Definition header_ok (f : CsvFile) : bool :=
  match header f with
  | [] => false
  | _ :: _ => negb (str_mem "" (header f)) && distinct (header f)
  end.

(** No record has more fields than the header. *)
Definition rectangular (f : CsvFile) : bool :=
  forallb (fun r => Nat.leb (length r) (length (header f))) (records f).

Definition well_formed (f : CsvFile) : bool :=
  header_ok f && rectangular f.

(** * Example data *)

Definition df0 : DataFrame :=
  mkDataFrame ["peptide_sequence"; "uniprot_id"; "Category"]
    [ (0, [Str "AAA"; Str "http://x/uniprot/P12345"; Str "Tcell"]);
      (1, [Str "BBB"; Str "http://x/uniprot/P12345"; Str "Bcell"]) ].

(** The Peptide Map of [df0]. *)
Definition d0 : PeptideMap := {["P12345" := [Str "AAA"; Str "BBB"]]}.

Definition fs0 : FileSystem := fun p =>
  if String.eqb p "iedb.csv" then
    Some (mkCsvFile ["Description"; "Extra"; "Parent.Protein.IRI"; "Category"]
      [ [Str "AAA mod1"; Str "z"; Str "http://x/uniprot/P12345"; Str "Tcell"];
        [Str "BBB"; NaN; Str "http://x/uniprot/P12345"; Str "Bcell"];
        [Str "DDD"; NaN; Str "http://x/uniprot/P12345"; NaN] ])
  else if String.eqb p "other.csv" then
    Some (mkCsvFile ["peptide_sequence"; "uniprot_id"]
      [ [Str "CCC"; Str "P99999"]; [Str "EEE"; NaN] ])
  else None.

Definition conds0 : conditions :=
  [("Description", None); ("Parent.Protein.IRI", None);
   ("Category", Some ("match", OStr "Tcell"))].

Definition fs_uri : FileSystem := fun p =>
  if String.eqb p "other.csv" then
    Some (mkCsvFile ["peptide_sequence"; "uniprot_id"]
      [ [Str "CCC"; Str "P99999"];
        [Str "DDD"; Str "sp|P1"] ])
  else None.

(** Two rows with the same peptide, whose protein URIs differ before the
    last [/] only. *)
Definition df_dup : DataFrame :=
  mkDataFrame ["peptide_sequence"; "uniprot_id"]
    [ (0, [Str "AAA"; Str "http://www.uniprot.org/uniprot/P12345"]);
      (1, [Str "AAA"; Str "https://www.uniprot.org/uniprot/P12345"]) ].

Definition fs_dup : FileSystem := fun p =>
  if String.eqb p "iedb.csv" then
    Some (mkCsvFile ["Description"; "Parent.Protein.IRI"]
      [ [Str "AAA"; Str "http://www.uniprot.org/uniprot/P12345"];
        [Str "AAA"; Str "https://www.uniprot.org/uniprot/P12345"] ])
  else None.


(** * Properties *)

(** ** The examples of the specification *)

Example filter_match_Tcell :
  apply_conditions df0 [("Category", Some ("match", OStr "Tcell"))]
  = Ok (mkDataFrame ["peptide_sequence"; "uniprot_id"; "Category"]
          [ (0, [Str "AAA"; Str "http://x/uniprot/P12345"; Str "Tcell"]) ]).
Proof. vm_compute. reflexivity. Qed.

Example end_to_end_structured :
  extract_peptide_data fs0 "iedb.csv" (Some conds0) true
  = ([Print "---> Extracting peptide data from IEDB...";
      ReadCsv "iedb.csv";
      Print "---> Applying filtering conditions defined by the user...";
      Print "---> Creating the dictionary..."],
     Ok {["P12345" := [Str "AAA"]]}).
Proof. vm_compute. reflexivity. Qed.

Example end_to_end_generic :
  extract_peptide_data fs0 "other.csv" None false
  = ([Print "---> Extracting peptide data from other databases ...";
      ReadCsv "other.csv";
      Print "---> Creating the dictionary..."],
     Ok {["P99999" := [Str "CCC"]]}).
Proof. vm_compute. reflexivity. Qed.

(** ** The result monad *)

Lemma bind_Ok {A B : Type} (a : A) (f : A → result B) :
  (Ok a ≫= f) = f a.
Proof. reflexivity. Qed.

Lemma bind_Raise {A B : Type} (e : exn) (f : A → result B) :
  (Raise e ≫= f) = Raise e.
Proof. reflexivity. Qed.

Lemma bind_ret_r {A : Type} (m : result A) : (m ≫= Ok) = m.
Proof. by destruct m. Qed.

Lemma bind_inv_Ok {A B : Type} (m : result A) (f : A → result B) (b : B) :
  (m ≫= f) = Ok b → ∃ a, m = Ok a ∧ f a = Ok b.
Proof. destruct m as [a|e]; [eauto | discriminate]. Qed.

(** ** One loop iteration, by cases on the operator *)

Lemma apply_condition_cases df c op v :
  apply_condition df c (op, v) =
    if String.eqb op "contains" then
      col ← getitem df c; getitem_mask df (str_contains col v)
    else if String.eqb op "not_contains" then
      col ← getitem df c; getitem_mask df (eq_False (str_contains col v))
    else if String.eqb op "match" then
      col ← getitem df c; m ← series_eq col v; getitem_mask df m
    else if String.eqb op "not_match" then
      col ← getitem df c; m ← series_ne col v; getitem_mask df m
    else if String.eqb op "is_in" then
      col ← getitem df c; m ← isin col v; getitem_mask df m
    else Ok df.
Proof.
  unfold apply_condition; cbn [fst snd].
  destruct (String.eqb_spec op "contains") as [->|_].
  { cbn. apply bind_ret_r. }
  destruct (String.eqb_spec op "not_contains") as [->|_].
  { cbn. apply bind_ret_r. }
  destruct (String.eqb_spec op "match") as [->|_].
  { cbn. apply bind_ret_r. }
  destruct (String.eqb_spec op "not_match") as [->|_].
  { cbn. apply bind_ret_r. }
  destruct (String.eqb_spec op "is_in") as [->|_].
  { cbn. apply bind_ret_r. }
  reflexivity.
Qed.

Lemma recognized_false op :
  recognized op = false →
  String.eqb op "contains" = false ∧ String.eqb op "not_contains" = false ∧
  String.eqb op "match" = false ∧ String.eqb op "not_match" = false ∧
  String.eqb op "is_in" = false.
Proof.
  unfold recognized, str_mem; cbn [existsb]; intros H.
  repeat (apply orb_false_elim in H as [? H]). auto.
Qed.

Lemma apply_condition_unrecognized df c op v :
  recognized op = false → apply_condition df c (op, v) = Ok df.
Proof.
  intros (H1 & H2 & H3 & H4 & H5)%recognized_false.
  by rewrite apply_condition_cases, H1, H2, H3, H4, H5.
Qed.

Lemma apply_conditions_app df C1 C2 :
  apply_conditions df (C1 ++ C2) =
  apply_conditions df C1 ≫= λ df', apply_conditions df' C2.
Proof.
  revert df; induction C1 as [|[c [cv|]] C1 IH]; intros df; cbn; auto.
  destruct (apply_condition df c cv); cbn; auto.
Qed.

(** ** Masks and row selection *)

Lemma select_sublist {A : Type} (l : list A) (m : mask) :
  select l m `sublist_of` l.
Proof.
  revert m; induction l as [|x l IH]; intros [|[[]|] m]; cbn;
    try apply sublist_nil_l; by constructor.
Qed.

Lemma getitem_mask_total df (f : nat * list cell → bool) (m : mask) :
  m = map (λ r, Some (f r)) (rows df) →
  getitem_mask df m = Ok (mkDataFrame (columns df) (List.filter f (rows df))).
Proof.
  intros ->. unfold getitem_mask.
  assert (existsb is_na_entry (map (λ r, Some (f r)) (rows df)) = false) as ->.
  { induction (rows df); cbn; auto. }
  f_equal. f_equal. induction (rows df) as [|r l IH]; cbn; auto.
  destruct (f r); by rewrite IH.
Qed.

Lemma getitem_mask_inv df m df' :
  getitem_mask df m = Ok df' →
  columns df' = columns df ∧ rows df' = select (rows df) m.
Proof.
  unfold getitem_mask. destruct (existsb _ _); [discriminate|].
  by intros [= <-].
Qed.

Lemma apply_condition_narrows df c cv df' :
  apply_condition df c cv = Ok df' →
  columns df' = columns df ∧ rows df' `sublist_of` rows df.
Proof.
  destruct cv as [op v]. rewrite apply_condition_cases.
  assert (∀ g : list cell → result mask,
    (col ← getitem df c; m ← g col; getitem_mask df m) = Ok df' →
    columns df' = columns df ∧ rows df' `sublist_of` rows df) as Hmask.
  { intros g (col & _ & (m & _ & [-> ->]%getitem_mask_inv)%bind_inv_Ok)%bind_inv_Ok.
    split; [done | apply select_sublist]. }
  destruct (String.eqb op "contains").
  { apply (Hmask (λ col, Ok (str_contains col v))). }
  destruct (String.eqb op "not_contains").
  { apply (Hmask (λ col, Ok (eq_False (str_contains col v)))). }
  destruct (String.eqb op "match"); [apply (Hmask (λ col, series_eq col v))|].
  destruct (String.eqb op "not_match"); [apply (Hmask (λ col, series_ne col v))|].
  destruct (String.eqb op "is_in"); [apply (Hmask (λ col, isin col v))|].
  by intros [= <-].
Qed.

Lemma apply_conditions_narrows df C df' :
  apply_conditions df C = Ok df' →
  columns df' = columns df ∧ rows df' `sublist_of` rows df.
Proof.
  revert df; induction C as [|[c [cv|]] C IH]; intros df; cbn.
  - by intros [= <-].
  - intros (df1 & [E1 S1]%apply_condition_narrows & [E2 S2]%IH)%bind_inv_Ok.
    split; [congruence | by etrans].
  - apply IH.
Qed.

(** ** What one well-typed entry computes *)

Lemma getitem_mask_contains df i p :
  getitem_mask df (str_contains (map (λ r, cell_at i r.2) (rows df)) (OStr p)) =
  if existsb (λ r, negb (notna (cell_at i r.2))) (rows df)
  then Raise NonBooleanMask
  else Ok (mkDataFrame (columns df)
             (List.filter (λ r, cell_test ("contains", OStr p) (cell_at i r.2))
                (rows df))).
Proof.
  unfold getitem_mask, str_contains.
  assert (∀ l : list (nat * list cell),
    existsb is_na_entry
      (map (λ x, match x with Str x => Some (str_in p x) | NaN => None end)
         (map (λ r, cell_at i r.2) l))
    = existsb (λ r, negb (notna (cell_at i r.2))) l) as Hna.
  { induction l as [|r l IH]; cbn; [done|].
    rewrite IH. by destruct (cell_at i r.2). }
  rewrite Hna. destruct (existsb _ (rows df)) eqn:E; [done|].
  f_equal. f_equal. clear Hna.
  induction (rows df) as [|r l IH]; cbn in *; [done|].
  apply orb_false_elim in E as [E1 E2].
  destruct (cell_at i r.2) as [|s]; [done|].
  cbn. rewrite IH by done. by destruct (str_in p s).
Qed.

Lemma apply_condition_missing df c cv :
  recognized cv.1 = true → index_of c (columns df) = None →
  apply_condition df c cv = Raise (KeyError c).
Proof.
  destruct cv as [op v]; cbn [fst]; intros Hr Hi.
  rewrite apply_condition_cases. unfold getitem. rewrite Hi. cbn.
  unfold recognized, str_mem in Hr; cbn [existsb] in Hr.
  repeat (destruct (String.eqb op _); [done|]). done.
Qed.

Lemma cell_test_unrecognized cv x :
  recognized cv.1 = false → cell_test cv x = true.
Proof.
  intros (H1 & H2 & H3 & H4 & H5)%recognized_false.
  unfold cell_test. by rewrite H1, H2, H3, H4, H5.
Qed.

Lemma apply_condition_spec df c cv i :
  well_typed cv = true → recognized cv.1 = true →
  index_of c (columns df) = Some i →
  apply_condition df c cv =
    if String.eqb cv.1 "contains" &&
       existsb (λ r, negb (notna (cell_at i r.2))) (rows df)
    then Raise NonBooleanMask
    else Ok (mkDataFrame (columns df)
               (List.filter (λ r, cell_test cv (cell_at i r.2)) (rows df))).
Proof.
  destruct cv as [op v]; unfold well_typed; cbn [fst snd]; intros Hwt Hr Hi.
  rewrite apply_condition_cases. unfold getitem. rewrite Hi.
  rewrite bind_Ok.
  destruct (String.eqb_spec op "contains") as [->|H1%String.eqb_neq].
  { destruct v; [|done]. apply getitem_mask_contains. }
  cbn [andb].
  destruct (String.eqb_spec op "not_contains") as [->|H2%String.eqb_neq].
  { destruct v as [p|]; [|done]. apply getitem_mask_total.
    unfold eq_False, str_contains. rewrite !map_map. apply map_ext.
    intros r; cbn. by destruct (cell_at i r.2) as [|s]; [|destruct (str_in p s)]. }
  destruct (String.eqb_spec op "match") as [->|H3%String.eqb_neq].
  { destruct v as [p|]; [|done]. cbn. apply getitem_mask_total.
    by rewrite map_map. }
  destruct (String.eqb_spec op "not_match") as [->|H4%String.eqb_neq].
  { destruct v as [p|]; [|done]. cbn. apply getitem_mask_total.
    by rewrite map_map. }
  destruct (String.eqb_spec op "is_in") as [->|H5%String.eqb_neq].
  { destruct v as [|l]; [done|]. cbn. apply getitem_mask_total.
    rewrite map_map. apply map_ext. intros r; cbn.
    by destruct (cell_at i r.2). }
  exfalso. unfold recognized, str_mem in Hr; cbn [existsb] in Hr.
  by rewrite H1, H2, H3, H4, H5 in Hr.
Qed.

Lemma filter_true {A : Type} (f : A → bool) (l : list A) :
  (∀ x, f x = true) → List.filter f l = l.
Proof.
  intros Hf. induction l as [|x l IH]; cbn; [done|]. by rewrite Hf, IH.
Qed.

Lemma filter_filter_andb {A : Type} (f g : A → bool) (l : list A) :
  List.filter g (List.filter f l) = List.filter (λ x, f x && g x) l.
Proof.
  induction l as [|x l IH]; cbn; [done|].
  destruct (f x); cbn; [destruct (g x)|]; by rewrite IH.
Qed.

Lemma existsb_false_subset {A : Type} (f : A → bool) (l l2 : list A) :
  (∀ x, x ∈ l2 → x ∈ l) → existsb f l = false → existsb f l2 = false.
Proof.
  intros Hsub Hl. apply not_true_is_false.
  intros (x & Hx%list_elem_of_In%Hsub%list_elem_of_In & Hfx)%existsb_exists.
  assert (existsb f l = true) by (apply existsb_exists; eauto). congruence.
Qed.

(** A well-typed entry that returns has kept exactly the rows passing
    its test. *)
Lemma apply_condition_keeps df c cv df' :
  well_typed cv = true → apply_condition df c cv = Ok df' →
  df' = mkDataFrame (columns df)
          (List.filter (keeps (columns df) (c, Some cv)) (rows df)).
Proof.
  intros Hwt. unfold keeps; cbn [fst snd].
  destruct (recognized cv.1) eqn:Hr.
  - destruct (index_of c (columns df)) as [i|] eqn:Hi.
    + rewrite (apply_condition_spec _ _ _ i) by done.
      destruct (_ && _); [done|]. by intros [= <-].
    + by rewrite apply_condition_missing.
  - destruct cv as [op v]. rewrite apply_condition_unrecognized by done.
    intros [= <-]. rewrite filter_true; [by destruct df|].
    intros r. destruct (index_of _ _); [|done].
    by apply cell_test_unrecognized.
Qed.

(** The same entry on a table with the same header and a subset of the
    rows returns as well. *)
Lemma apply_condition_sub df c cv df' df2 :
  well_typed cv = true → apply_condition df c cv = Ok df' →
  columns df2 = columns df → (∀ r, r ∈ rows df2 → r ∈ rows df) →
  apply_condition df2 c cv =
    Ok (mkDataFrame (columns df2)
          (List.filter (keeps (columns df2) (c, Some cv)) (rows df2))).
Proof.
  intros Hwt Hok Hcols Hsub. unfold keeps; cbn [fst snd]. rewrite Hcols.
  destruct (recognized cv.1) eqn:Hr.
  - destruct (index_of c (columns df)) as [i|] eqn:Hi.
    + rewrite (apply_condition_spec _ _ _ i) in Hok by done.
      rewrite (apply_condition_spec _ _ _ i) by (done || congruence).
      destruct (String.eqb cv.1 "contains"); cbn [andb] in *.
      * destruct (existsb _ (rows df)) eqn:E; [done|].
        rewrite (existsb_false_subset _ _ _ Hsub E). by rewrite Hcols.
      * by rewrite Hcols.
    + by rewrite apply_condition_missing in Hok.
  - destruct cv as [op v]. rewrite apply_condition_unrecognized by done.
    rewrite filter_true; [by destruct df2; cbn in *; subst|].
    intros r. destruct (index_of _ _); [|done].
    by apply cell_test_unrecognized.
Qed.

Lemma keeps_all_cons cols e C r :
  keeps_all cols (e :: C) r = keeps cols e r && keeps_all cols C r.
Proof. reflexivity. Qed.

Lemma apply_conditions_keeps df C df' :
  forallb well_typed_entry C = true → apply_conditions df C = Ok df' →
  df' = mkDataFrame (columns df)
          (List.filter (keeps_all (columns df) C) (rows df)).
Proof.
  revert df; induction C as [|[c [cv|]] C IH]; intros df; cbn [forallb].
  - intros _ [= <-]. cbn. rewrite filter_true; by destruct df.
  - intros [Hwt HC]%andb_prop. cbn [apply_conditions].
    intros (df1 & ->%apply_condition_keeps & ->%IH)%bind_inv_Ok; [|done..].
    cbn [columns rows]. by rewrite filter_filter_andb.
  - intros [_ HC]%andb_prop. cbn [apply_conditions]. by intros ->%IH.
Qed.

Lemma apply_conditions_sub df C df' df2 :
  forallb well_typed_entry C = true → apply_conditions df C = Ok df' →
  columns df2 = columns df → (∀ r, r ∈ rows df2 → r ∈ rows df) →
  apply_conditions df2 C =
    Ok (mkDataFrame (columns df2)
          (List.filter (keeps_all (columns df2) C) (rows df2))).
Proof.
  revert df df2; induction C as [|[c [cv|]] C IH]; intros df df2; cbn [forallb].
  - intros _ _ _ _. cbn. rewrite filter_true; by destruct df2.
  - intros [Hwt HC]%andb_prop. cbn [apply_conditions].
    intros (df1 & H1 & H2)%bind_inv_Ok Hcols Hsub.
    rewrite (apply_condition_sub df c cv df1 df2) by done.
    rewrite bind_Ok.
    pose proof (apply_condition_keeps _ _ _ _ Hwt H1) as ->.
    rewrite (IH _ _ HC H2); cbn [columns rows].
    + by rewrite filter_filter_andb.
    + done.
    + rewrite Hcols. intros r.
      rewrite !list_elem_of_In, !filter_In, <-!list_elem_of_In.
      intros [Hr Hk]. split; [by apply Hsub | done].
  - intros [_ HC]%andb_prop. cbn [apply_conditions]. intros H Hcols Hsub.
    by erewrite IH.
Qed.

Lemma filter_idem {A : Type} (f : A → bool) (l : list A) :
  List.filter f (List.filter f l) = List.filter f l.
Proof.
  rewrite filter_filter_andb. apply filter_ext. intros x. by destruct (f x).
Qed.

Lemma string_column_filter cols l f c :
  string_column (mkDataFrame cols l) c = true →
  string_column (mkDataFrame cols (List.filter f l)) c = true.
Proof.
  unfold string_column; cbn. destruct (index_of c cols); [|done].
  rewrite !forallb_forall. intros H r [Hr _]%filter_In. by apply H.
Qed.

Lemma admissible_filter cols l f C :
  admissible (mkDataFrame cols l) C = true →
  admissible (mkDataFrame cols (List.filter f l)) C = true.
Proof.
  unfold admissible. rewrite !forallb_forall. intros H e He.
  specialize (H e He). cbn beta in *. destruct (e.2) as [cv|]; [|done].
  apply andb_prop in H as [-> H]. cbn [andb].
  apply orb_prop in H as [-> | H]; [done|].
  rewrite (string_column_filter _ _ _ _ H). apply orb_true_r.
Qed.

(** On an admissible input the filter returns, and returns the rows
    passing every test. *)
Lemma apply_conditions_total df C :
  admissible df C = true →
  apply_conditions df C =
    Ok (mkDataFrame (columns df)
          (List.filter (keeps_all (columns df) C) (rows df))).
Proof.
  revert df; induction C as [|[c [cv|]] C IH]; intros [cols l].
  - intros _. cbn. by rewrite filter_true.
  - intros Hadm. pose proof Hadm as [[Hwt Hc]%andb_prop HC]%andb_prop.
    cbn [fst snd] in Hwt, Hc. cbn [apply_conditions].
    assert (apply_condition (mkDataFrame cols l) c cv =
            Ok (mkDataFrame cols
                  (List.filter (keeps cols (c, Some cv)) l))) as ->.
    { apply (apply_condition_sub (mkDataFrame cols l) c cv
               (mkDataFrame cols (List.filter (keeps cols (c, Some cv)) l)));
        [done| |done|done].
      destruct (recognized cv.1) eqn:Hr; cbn in Hc.
      - unfold string_column in Hc; cbn in Hc. unfold keeps; cbn [fst snd].
        destruct (index_of c cols) as [i|] eqn:Hi; [|done].
        rewrite (apply_condition_spec _ _ _ i) by done. cbn [columns rows].
        assert (existsb (λ r, negb (notna (cell_at i r.2))) l = false) as ->.
        { apply not_true_is_false. intros (r & Hr1 & Hr2)%existsb_exists.
          rewrite forallb_forall in Hc. rewrite (Hc r Hr1) in Hr2. done. }
        by rewrite andb_false_r.
      - destruct cv as [op v]. rewrite apply_condition_unrecognized by done.
        rewrite filter_true; [done|]. intros r. unfold keeps; cbn [fst snd].
        destruct (index_of _ _); [|done]. by apply cell_test_unrecognized. }
    rewrite bind_Ok, IH by (by apply admissible_filter).
    cbn [columns rows]. by rewrite filter_filter_andb.
  - intros [_ HC]%andb_prop. cbn [apply_conditions]. by rewrite IH.
Qed.

(** ** Reflection of the cell tests *)

Lemma append_nil (b : string) : "" +:+ b = b.
Proof. reflexivity. Qed.

Lemma append_cons (c : ascii) (a b : string) :
  String c a +:+ b = String c (a +:+ b).
Proof. reflexivity. Qed.

Lemma prefix_spec p s : String.prefix p s = true ↔ ∃ b, s = p +:+ b.
Proof.
  revert s; induction p as [|c p IH]; intros s; cbn.
  - split; [by exists s | by destruct s].
  - destruct s as [|c' s]; cbn.
    + split; [done | intros [b Hb]; by rewrite append_cons in Hb].
    + destruct (Ascii.ascii_dec c c') as [->|Hne].
      * rewrite IH.
        split; intros [b Hb]; exists b; rewrite append_cons in *; congruence.
      * split; [done | intros [b Hb]; rewrite append_cons in Hb; congruence].
Qed.

Lemma str_in_spec v s : str_in v s = true ↔ substring_of v s.
Proof.
  unfold substring_of. split.
  - induction s as [|c s IH]; cbn [str_in]; intros H%orb_prop.
    + destruct H as [[b ->]%prefix_spec | ?]; [|done]. by exists "", b.
    + destruct H as [[b ->]%prefix_spec | (a & b & ->)%IH].
      * by exists "", b.
      * by exists (String c a), b.
  - intros (a & b & ->). induction a as [|c a IH].
    + rewrite append_nil. assert (String.prefix v (v +:+ b) = true) as Hp
        by (apply prefix_spec; eauto).
      destruct (v +:+ b); cbn [str_in]; by rewrite Hp.
    + rewrite append_cons. cbn [str_in]. rewrite IH. apply orb_true_r.
Qed.

Lemma cell_eqb_spec x v : cell_eqb x v = true ↔ x = Str v.
Proof.
  destruct x as [|s]; cbn; [done|]. rewrite String.eqb_eq.
  split; congruence.
Qed.

Lemma str_mem_spec v l : str_mem v l = true ↔ v ∈ l.
Proof.
  unfold str_mem. rewrite existsb_exists, list_elem_of_In. split.
  - by intros (x & Hx & ->%String.eqb_eq).
  - intros H. exists v. by rewrite String.eqb_refl.
Qed.

Lemma apply_conditions_single df c cv i :
  well_typed cv = true → recognized cv.1 = true →
  index_of c (columns df) = Some i →
  (cv.1 = "contains" →
   forallb (λ r, notna (cell_at i r.2)) (rows df) = true) →
  apply_conditions df [(c, Some cv)] =
    Ok (mkDataFrame (columns df)
          (List.filter (λ r, cell_test cv (cell_at i r.2)) (rows df))).
Proof.
  intros Hwt Hr Hi Hna. cbn [apply_conditions].
  rewrite (apply_condition_spec _ _ _ i) by done.
  destruct (String.eqb_spec cv.1 "contains") as [Hc|_]; [|done].
  assert (existsb (λ r, negb (notna (cell_at i r.2))) (rows df) = false) as ->.
  { apply not_true_is_false. intros (r & Hr1 & Hr2)%existsb_exists.
    pose proof (Hna Hc) as Hall. rewrite forallb_forall in Hall.
    rewrite (Hall r Hr1) in Hr2. done. }
  done.
Qed.

(** * The Row Filter *)

(** C9.  An entry whose operator string is none of [contains],
    [not_contains], [match], [not_match], [is_in] raises nothing and has
    no effect: on its own it returns the table unchanged, and anywhere in
    a specification the outcome (the surviving rows, or the error of
    another entry) is the outcome of the specification without it. *)
Theorem unrecognized_entry_has_no_effect df pre post c op v :
  recognized op = false →
  apply_conditions df [(c, Some (op, v))] = Ok df ∧
  apply_conditions df (pre ++ (c, Some (op, v)) :: post) =
  apply_conditions df (pre ++ post).
Proof.
  intros Hop. split.
  - cbn [apply_conditions]. by rewrite apply_condition_unrecognized.
  - rewrite !apply_conditions_app. destruct (apply_conditions df pre); [|done].
    rewrite !bind_Ok. cbn [apply_conditions].
    by rewrite apply_condition_unrecognized.
Qed.

Lemma unrecognized_entry_has_no_effect_witness :
  apply_conditions df0 [("Category", Some ("regex", OStr "T.*"))] = Ok df0 ∧
  apply_conditions df0
    ([("Category", Some ("match", OStr "Tcell"))] ++
     ("Category", Some ("regex", OStr "T.*")) ::
     [("peptide_sequence", Some ("contains", OStr "A"))]) =
  apply_conditions df0
    ([("Category", Some ("match", OStr "Tcell"))] ++
     [("peptide_sequence", Some ("contains", OStr "A"))]).
Proof.
  apply (unrecognized_entry_has_no_effect df0
           [("Category", Some ("match", OStr "Tcell"))]
           [("peptide_sequence", Some ("contains", OStr "A"))]
           "Category" "regex" (OStr "T.*")).
  reflexivity.
Defined.

(** C1, as the code has it.  No entry is rejected for its operator: a
    specification whose entries are all [None] or carry an operator
    outside the five returns the table it was given, unchanged. *)
Theorem inert_conditions_return_table df C :
  forallb inert C = true → apply_conditions df C = Ok df.
Proof.
  induction C as [|[c [[op v]|]] C IH]; cbn [forallb]; [done| |].
  - intros [Hop%negb_true_iff HC]%andb_prop. cbn [apply_conditions].
    cbn in Hop. rewrite apply_condition_unrecognized by done. by apply IH.
  - intros [_ HC]%andb_prop. by apply IH.
Qed.

Lemma inert_conditions_return_table_witness :
  apply_conditions df0
    [("Description", None); ("Category", Some ("regex", OStr "T.*"))] = Ok df0.
Proof.
  apply (inert_conditions_return_table df0
           [("Description", None); ("Category", Some ("regex", OStr "T.*"))]).
  reflexivity.
Defined.

(** C1, as stated, fails: the operator [regex] is none of the five, and
    the filter returns the table instead of an error. *)
Lemma unrecognized_operator_not_rejected :
  recognized "regex" = false ∧
  apply_conditions df0 [("Category", Some ("regex", OStr "T.*"))] = Ok df0 ∧
  ¬ (∃ e, apply_conditions df0 [("Category", Some ("regex", OStr "T.*"))]
          = Raise e).
Proof. split; [reflexivity|]. split; [reflexivity|]. by intros [e He]. Qed.

(** C5.  Whatever table [apply_conditions] returns has the header of the
    input and, as rows, an order-preserving subsequence of the input
    rows (labels included): nothing is added, duplicated or reordered and
    every surviving row occurs in the input.  A table is returned on
    every admissible input. *)
Theorem apply_conditions_subsequence df C :
  (admissible df C = true → ∃ df', apply_conditions df C = Ok df') ∧
  (∀ df', apply_conditions df C = Ok df' →
     columns df' = columns df ∧
     rows df' `sublist_of` rows df ∧
     (∀ r, r ∈ rows df' → r ∈ rows df)).
Proof.
  split.
  - intros H. rewrite apply_conditions_total by done. eauto.
  - intros df' [Hc Hs]%apply_conditions_narrows. repeat split; [done..|].
    intros r Hr. by eapply sublist_subseteq.
Qed.

Lemma apply_conditions_subsequence_witness :
  ∃ df', apply_conditions df0 [("Category", Some ("match", OStr "Tcell"))]
         = Ok df' ∧
         columns df' = columns df0 ∧ rows df' `sublist_of` rows df0.
Proof.
  destruct (apply_conditions_subsequence df0
              [("Category", Some ("match", OStr "Tcell"))]) as [Htot Hsub].
  destruct (Htot eq_refl) as [df' Hdf']. exists df'.
  destruct (Hsub df' Hdf') as (Hc & Hs & _). auto.
Defined.

(** C6.  For a column [c] of the table, in position [i]:
    - on a column without NaN, [contains v] keeps exactly the rows whose
      cell has [v] as a block of consecutive characters, and
      [not_contains v] exactly the other rows;
    - [match v] keeps exactly the rows whose cell is the string [v], and
      [not_match v] exactly the other rows;
    - [is_in l] keeps exactly the rows whose cell is a string of [l]. *)
Theorem operator_semantics df c i v l :
  index_of c (columns df) = Some i →
  (forallb (λ r, notna (cell_at i r.2)) (rows df) = true →
     filters_by df [(c, Some ("contains", OStr v))] i
       (λ x, ∃ s, x = Str s ∧ substring_of v s) ∧
     filters_by df [(c, Some ("not_contains", OStr v))] i
       (λ x, ¬ ∃ s, x = Str s ∧ substring_of v s)) ∧
  filters_by df [(c, Some ("match", OStr v))] i (λ x, x = Str v) ∧
  filters_by df [(c, Some ("not_match", OStr v))] i (λ x, x ≠ Str v) ∧
  filters_by df [(c, Some ("is_in", OSeq l))] i (λ x, ∃ s, x = Str s ∧ s ∈ l).
Proof.
  intros Hi.
  assert (∀ cv P, well_typed cv = true → recognized cv.1 = true →
    (cv.1 = "contains" →
     forallb (λ r, notna (cell_at i r.2)) (rows df) = true) →
    (∀ r, r ∈ rows df → cell_test cv (cell_at i r.2) = true ↔ P (cell_at i r.2)) →
    filters_by df [(c, Some cv)] i P) as Hgen.
  { intros cv P Hwt Hr Hna HP.
    exists (λ r, cell_test cv (cell_at i r.2)). split; [done|].
    by apply apply_conditions_single. }
  split; [intros Hna; split | repeat split].
  - apply Hgen; [done..|]. intros r Hr. cbn.
    destruct (cell_at i r.2) as [|s].
    + split; [done | by intros (s & [=] & _)].
    + rewrite str_in_spec. split; [eauto | by intros (s' & [= <-] & ?)].
  - apply Hgen; [done..|]. intros r Hr%list_elem_of_In. cbn.
    rewrite forallb_forall in Hna. specialize (Hna r Hr).
    destruct (cell_at i r.2) as [|s]; [done|].
    rewrite negb_true_iff, <-not_true_iff_false, str_in_spec.
    split; [intros Hn (s' & [= <-] & ?); done | intros Hn Hs; apply Hn; eauto].
  - apply Hgen; [done..|]. intros r Hr. cbn. apply cell_eqb_spec.
  - apply Hgen; [done..|]. intros r Hr. cbn.
    by rewrite negb_true_iff, <-not_true_iff_false, cell_eqb_spec.
  - apply Hgen; [done..|]. intros r Hr. cbn.
    destruct (cell_at i r.2) as [|s].
    + split; [done | by intros (s & [=] & _)].
    + rewrite str_mem_spec. split; [eauto | by intros (s' & [= <-] & ?)].
Qed.

Lemma operator_semantics_witness :
  (filters_by df0 [("Category", Some ("contains", OStr "cell"))] 2
     (λ x, ∃ s, x = Str s ∧ substring_of "cell" s) ∧
   filters_by df0 [("Category", Some ("not_contains", OStr "cell"))] 2
     (λ x, ¬ ∃ s, x = Str s ∧ substring_of "cell" s)) ∧
  filters_by df0 [("Category", Some ("match", OStr "cell"))] 2
    (λ x, x = Str "cell") ∧
  filters_by df0 [("Category", Some ("not_match", OStr "cell"))] 2
    (λ x, x ≠ Str "cell") ∧
  filters_by df0 [("Category", Some ("is_in", OSeq ["Tcell"]))] 2
    (λ x, ∃ s, x = Str s ∧ s ∈ ["Tcell"]).
Proof.
  destruct (operator_semantics df0 "Category" 2 "cell" ["Tcell"] eq_refl)
    as [Hc Hrest].
  split; [exact (Hc eq_refl) | exact Hrest].
Defined.

(** C7.  For a well-typed specification, filtering the result of
    [apply_conditions] again with the same specification changes nothing;
    when the first pass raises, so does the composition, with the same
    error. *)
Theorem apply_conditions_idempotent df C :
  forallb well_typed_entry C = true →
  (apply_conditions df C ≫= λ df', apply_conditions df' C)
  = apply_conditions df C.
Proof.
  intros Hwt. destruct (apply_conditions df C) as [df'|e] eqn:E; [|done].
  rewrite bind_Ok.
  pose proof (apply_conditions_narrows _ _ _ E) as [Hc Hs].
  rewrite (apply_conditions_sub df C df' df') by
    (done || intros r Hr; by eapply sublist_subseteq).
  apply apply_conditions_keeps in E as ->; [|done]. cbn [columns rows].
  by rewrite filter_idem.
Qed.

(** The typing hypothesis matters: [match] against a list compares
    position by position, which depends on the number of rows. *)
Example ill_typed_match_is_positional :
  apply_conditions df0 [("Category", Some ("match", OSeq ["Tcell"; "x"]))]
    = Ok (mkDataFrame (columns df0) [(0, [Str "AAA"; Str "http://x/uniprot/P12345"; Str "Tcell"])]) ∧
  apply_conditions
    (mkDataFrame (columns df0) [(0, [Str "AAA"; Str "http://x/uniprot/P12345"; Str "Tcell"])])
    [("Category", Some ("match", OSeq ["Tcell"; "x"]))]
    = Raise LengthsMustMatch.
Proof. split; reflexivity. Qed.

Lemma apply_conditions_idempotent_witness :
  (apply_conditions df0
     [("Category", Some ("contains", OStr "cell"));
      ("peptide_sequence", Some ("not_match", OStr "BBB"))]
   ≫= λ df', apply_conditions df'
     [("Category", Some ("contains", OStr "cell"));
      ("peptide_sequence", Some ("not_match", OStr "BBB"))])
  = apply_conditions df0
     [("Category", Some ("contains", OStr "cell"));
      ("peptide_sequence", Some ("not_match", OStr "BBB"))].
Proof.
  apply (apply_conditions_idempotent df0
     [("Category", Some ("contains", OStr "cell"));
      ("peptide_sequence", Some ("not_match", OStr "BBB"))]).
  reflexivity.
Defined.

(** * The Merger *)

(** C4.  [merge_peptide_data base override] returns a map whose keys are
    the keys of either argument; a key of [override] carries
    [override]'s list, whole, and any other key carries [base]'s;
    merging with the empty map on either side returns the other map. *)
Theorem merge_peptide_data_override (base override M : PeptideMap) :
  (∃ d, (merge_peptide_data base override).2 = Ok d ∧
        dom d = dom base ∪ dom override ∧
        (∀ k v, override !! k = Some v → d !! k = Some v) ∧
        (∀ k, override !! k = None → d !! k = base !! k)) ∧
  (merge_peptide_data M ∅).2 = Ok M ∧
  (merge_peptide_data ∅ M).2 = Ok M.
Proof.
  unfold merge_peptide_data; cbn. repeat split.
  - exists (override ∪ base). repeat split.
    + rewrite dom_union_L. apply (comm_L (∪)).
    + intros k v Hk. by apply lookup_union_Some_l.
    + intros k Hk. by rewrite lookup_union_r.
  - by rewrite (left_id_L ∅ (∪)).
  - by rewrite (right_id_L ∅ (∪)).
Qed.

Lemma merge_peptide_data_override_witness :
  ∃ d, (merge_peptide_data {["P1" := [Str "A"]; "P2" := [Str "C"]]}
          {["P1" := [Str "B"]]}).2 = Ok d ∧
       d !! "P1" = Some [Str "B"] ∧
       d !! "P2" = ({["P1" := [Str "A"]; "P2" := [Str "C"]]} : PeptideMap) !! "P2".
Proof.
  destruct (merge_peptide_data_override
              {["P1" := [Str "A"]; "P2" := [Str "C"]]} {["P1" := [Str "B"]]} ∅)
    as [(d & Hd & _ & Hover & Hbase) _].
  exists d. split; [exact Hd|]. split.
  - apply Hover. reflexivity.
  - apply Hbase. reflexivity.
Defined.

Example merge_override_wins :
  (merge_peptide_data {["P1" := [Str "A"]]} {["P1" := [Str "B"]]}).2
  = Ok {["P1" := [Str "B"]]}.
Proof. vm_compute. reflexivity. Qed.

(** * The Dictionary Reducer *)

(** C2 fails on the code.  The two rows of [df_dup] differ as
    (peptide, URI) pairs, so [drop_duplicates] keeps both; the URIs are
    cut down to the same protein code afterwards, and the peptide is
    listed twice under it.  The same happens from a file, through
    [extract_peptide_data]. *)
Theorem create_dictionary_repeats_peptide :
  create_dictionary df_dup = Ok {["P12345" := [Str "AAA"; Str "AAA"]]} ∧
  ¬ NoDup [Str "AAA"; Str "AAA"] ∧
  (extract_peptide_data fs_dup "iedb.csv"
     (Some [("Description", None); ("Parent.Protein.IRI", None)]) true).2
  = Ok {["P12345" := [Str "AAA"; Str "AAA"]]}.
Proof.
  split; [vm_compute; reflexivity|]. split; [|vm_compute; reflexivity].
  intros H. apply NoDup_cons in H as [H _]. apply H. by left.
Qed.

(** * The trace monad *)

Lemma io_bind_snd {A B : Type} (m : io A) (f : A → io B) :
  (io_bind m f).2 = m.2 ≫= λ a, (f a).2.
Proof. destruct m as [t [a|e]]; cbn; [by destruct (f a)|done]. Qed.

(** * Errors that cannot be the dereference of [None] *)

Lemma nae_Ok {A : Type} (a : A) : no_attribute_error (Ok a).
Proof. by intros attr. Qed.

Lemma nae_bind {A B : Type} (m : result A) (f : A → result B) :
  no_attribute_error m → (∀ a, no_attribute_error (f a)) →
  no_attribute_error (m ≫= f).
Proof.
  destruct m as [a|e]; cbn; [by auto|]. intros H _ attr [= ->]. by apply (H attr).
Qed.

Lemma nae_getitem df c : no_attribute_error (getitem df c).
Proof. unfold getitem. by destruct (index_of _ _); intros attr. Qed.

Lemma nae_getitem_mask df m : no_attribute_error (getitem_mask df m).
Proof. unfold getitem_mask. by destruct (existsb _ _); intros attr. Qed.

Lemma nae_update_column df c f : no_attribute_error (update_column df c f).
Proof. unfold update_column. by destruct (index_of _ _); intros attr. Qed.

Create HintDb nae.

#[local] Hint Resolve nae_Ok nae_getitem nae_getitem_mask nae_update_column
  : nae.

Lemma nae_apply_condition df c cv : no_attribute_error (apply_condition df c cv).
Proof.
  destruct cv as [op v]. rewrite apply_condition_cases.
  repeat case_match; try apply nae_Ok;
    apply nae_bind; auto with nae; intros col;
    try (apply nae_bind; auto with nae).
  - destruct v; cbn; [apply nae_Ok|]. by case_match; intros attr.
  - destruct v; cbn; [apply nae_Ok|]. by case_match; intros attr.
  - by destruct v; intros attr.
Qed.

Lemma nae_apply_conditions df C : no_attribute_error (apply_conditions df C).
Proof.
  revert df; induction C as [|[c [cv|]] C IH]; intros df; cbn; auto with nae.
  apply nae_bind; [apply nae_apply_condition | auto].
Qed.

Lemma nae_create_dictionary df : no_attribute_error (create_dictionary df).
Proof.
  unfold create_dictionary.
  apply nae_bind; [auto with nae|]; intros p.
  apply nae_bind; auto with nae.
Qed.

Lemma nae_read_csv fs path usecols :
  no_attribute_error (read_csv fs path usecols).2.
Proof.
  unfold read_csv; cbn. destruct (fs path); [|by intros attr].
  by case_match; intros attr.
Qed.

(** * The Orchestrator *)

(** C10.  With [iedb=True] and the default [conditions_dictionary=None],
    [extract_peptide_data] prints its first message and raises on
    [conditions_dictionary.keys()]: the file is never read and nothing is
    filtered or returned.  With a dictionary that branch is not taken:
    neither the loader nor the whole extraction raises the error of
    [None.keys()] or of [None.items()]. *)
Theorem extract_without_conditions_fails fs path :
  extract_peptide_data fs path None true =
    ([Print "---> Extracting peptide data from IEDB..."],
     Raise (AttributeError "keys")) ∧
  (∀ p, ReadCsv p ∉ (extract_peptide_data fs path None true).1) ∧
  (∀ cd, (generate_df fs path (Some cd) true).2 ≠ Raise (AttributeError "keys") ∧
         (generate_df fs path (Some cd) true).2 ≠ Raise (AttributeError "items")) ∧
  (∀ cd,
     (extract_peptide_data fs path (Some cd) true).2
       ≠ Raise (AttributeError "keys") ∧
     (extract_peptide_data fs path (Some cd) true).2
       ≠ Raise (AttributeError "items")).
Proof.
  split; [reflexivity|]. split.
  { intros p. cbn. by intros [=]%list_elem_of_singleton. }
  assert (∀ cd, no_attribute_error (generate_df fs path (Some cd) true).2) as Hgen.
  { intros cd. unfold generate_df. cbv iota. rewrite ?io_bind_snd.
    apply nae_bind; [|intros; apply nae_Ok].
    apply nae_bind; [apply nae_Ok|]. intros usecols; cbv beta. rewrite ?io_bind_snd.
    apply nae_bind; [apply nae_read_csv|]. intros df; cbv beta. apply nae_update_column. }
  assert (∀ cd, no_attribute_error
                  (extract_peptide_data fs path (Some cd) true).2) as Hext.
  { intros cd. unfold extract_peptide_data. cbv iota. rewrite ?io_bind_snd.
    apply nae_bind.
    - apply nae_bind; [apply nae_Ok|]. intros _; cbv beta. rewrite ?io_bind_snd.
      apply nae_bind; [apply Hgen|]. intros df; cbv beta. rewrite ?io_bind_snd.
      apply nae_bind; [apply nae_Ok|]. intros _; cbv beta. apply nae_apply_conditions.
    - intros df. rewrite ?io_bind_snd.
      apply nae_bind; [apply nae_Ok|]. intros _; cbv beta. rewrite ?io_bind_snd.
      apply nae_bind; [apply nae_create_dictionary|]. intros d. apply nae_Ok. }
  split; intros cd; split; (apply Hgen || apply Hext).
Qed.

(** * The Table Loader *)


Lemma label_rows_snd (l : list (list cell)) : map snd (label_rows l) = l.
Proof.
  unfold label_rows. generalize 0 as a.
  induction l as [|r l IH]; intros a; cbn; [done|]. by rewrite IH.
Qed.


(** Rewriting the cells of labelled rows, dropping rows and forgetting
    the labels is the same as working on the bare records. *)
Lemma loaded_rows_snd (g : list cell → list cell) (P : list cell → bool)
    (l : list (list cell)) :
  map snd (List.filter (λ r, P r.2) (map (λ r, (r.1, g r.2)) (label_rows l)))
  = List.filter P (map g l).
Proof.
  unfold label_rows. generalize 0 as a.
  induction l as [|r l IH]; intros a; cbn; [done|].
  destruct (P (g r)); cbn; by rewrite IH.
Qed.




Lemma update_column_rows df c f df' :
  update_column df c f = Ok df' →
  ∃ i, index_of c (columns df) = Some i ∧ columns df' = columns df ∧
       rows df' = map (λ r, (r.1, <[i := f (cell_at i r.2)]> r.2)) (rows df).
Proof.
  unfold update_column. destruct (index_of c (columns df)) as [i|]; [|done].
  intros [= <-]. by exists i.
Qed.

Lemma generate_df_value fs path cd iedb :
  (generate_df fs path cd iedb).2 =
  (df ← (if iedb then
           usecols ← dict_keys cd;
           df ← (read_csv fs path (Some usecols)).2;
           update_column (rename df) "peptide_sequence" first_token
         else
           df ← (read_csv fs path None).2;
           update_column df "uniprot_id" replace_regex);
   Ok (reset_index (dropna df))).
Proof.
  unfold generate_df. rewrite io_bind_snd. destruct iedb.
  - rewrite io_bind_snd. cbn [lift snd].
    destruct (dict_keys cd) as [u|e]; [|done]. rewrite !bind_Ok.
    rewrite io_bind_snd. by destruct (read_csv fs path (Some u)).2.
  - rewrite io_bind_snd. by destruct (read_csv fs path None).2.
Qed.

Lemma read_csv_rows fs path usecols df :
  (read_csv fs path usecols).2 = Ok df →
  ∃ f, fs path = Some f ∧
       rows df = label_rows (map (project (kept_positions (header f) usecols))
                               (records f)).
Proof.
  unfold read_csv; cbn. destruct (fs path) as [f|]; [|done].
  case_match; [|done]. intros [= <-]. by exists f.
Qed.

(** What a successful load holds: the records of the file, projected,
    rewritten in one position by a map [g] that fixes NaN, the incomplete
    ones dropped, labelled from 0. *)
Lemma generate_df_rows fs path cd iedb df :
  (generate_df fs path cd iedb).2 = Ok df →
  ∃ f i g, fs path = Some f ∧ g NaN = NaN ∧
    rows df = label_rows
      (List.filter (forallb notna)
         (map (loaded_cells (kept_positions (header f) (usecols_of cd iedb)) i g)
            (records f))).
Proof.
  rewrite generate_df_value.
  intros (df1 & Hload & [= <-])%bind_inv_Ok. cbn [rows reset_index dropna].
  destruct iedb.
  - apply bind_inv_Ok in Hload as (u & Hu & Hload).
    apply bind_inv_Ok in Hload as (df0 & (f & Hf & Hrows)%read_csv_rows & Hload).
    apply update_column_rows in Hload as (i & _ & _ & ->). cbn [rows rename].
    destruct cd as [d|]; [|done]. injection Hu as <-.
    exists f, i, first_token. split; [done|]. split; [done|].
    rewrite Hrows.
    rewrite (loaded_rows_snd (λ r, <[i := first_token (cell_at i r)]> r)
               (forallb notna)).
    by rewrite map_map.
  - apply bind_inv_Ok in Hload as (df0 & (f & Hf & Hrows)%read_csv_rows & Hload).
    apply update_column_rows in Hload as (i & _ & _ & ->).
    exists f, i, replace_regex. split; [done|]. split; [done|].
    rewrite Hrows.
    rewrite (loaded_rows_snd (λ r, <[i := replace_regex (cell_at i r)]> r)
               (forallb notna)).
    by rewrite map_map.
Qed.

(** ** The identifier substitution *)

Lemma append_nil_r (s : string) : s +:+ "" = s.
Proof. induction s as [|c s IH]; [done|]. by rewrite append_cons, IH. Qed.

Lemma append_snoc (tok : string) (c : ascii) (w : string) :
  (tok +:+ String c "") +:+ w = tok +:+ String c w.
Proof.
  induction tok as [|c' tok IH]; [done|]. by rewrite !append_cons, IH.
Qed.

Lemma re_sub_word tok w :
  all_word w = true → re_sub tok w = expand (tok +:+ w).
Proof.
  revert tok; induction w as [|c w IH]; intros tok; cbn [all_word re_sub].
  - by rewrite append_nil_r.
  - intros [-> Hw]%andb_prop. by rewrite IH, append_snoc.
Qed.


Lemma header_positions (l : list string) :
  map (λ i, default "" (l !! i)) (seq 0 (length l)) = l.
Proof.
  induction l as [|c l IH]; cbn; [done|]. f_equal.
  rewrite <-seq_shift, map_map. exact IH.
Qed.





(** * Further properties of the Dictionary Reducer *)

Lemma drop_duplicates_from_elem {A : Type} `{EqDecision A}
    (seen l : list A) (x : A) :
  x ∈ drop_duplicates_from seen l ↔ x ∈ l ∧ x ∉ seen.
Proof.
  revert seen; induction l as [|y l IH]; intros seen; cbn.
  - split; [by intros ?%elem_of_nil | by intros [?%elem_of_nil _]].
  - destruct (decide (y ∈ seen)) as [Hy|Hy].
    + rewrite IH, elem_of_cons. split; [intros [Hx Hn]; split; [by right | done] |].
      intros [[->|Hx] Hn]; [done | by split].
    + rewrite !elem_of_cons, IH, elem_of_cons. split.
      * intros [->|[Hx Hn]]; [by split; [left|] | split; [by right | tauto]].
      * intros [[->|Hx] Hn]; [by left|].
        destruct (decide (x = y)) as [->|Hne]; [by left|].
        right. split; [done|]. by intros [?|?].
Qed.

Lemma drop_duplicates_from_NoDup {A : Type} `{EqDecision A} (seen l : list A) :
  NoDup (drop_duplicates_from seen l).
Proof.
  revert seen; induction l as [|y l IH]; intros seen; cbn; [constructor|].
  destruct (decide (y ∈ seen)); [apply IH|].
  constructor; [|apply IH].
  rewrite drop_duplicates_from_elem, elem_of_cons. tauto.
Qed.

Lemma drop_duplicates_from_sublist {A : Type} `{EqDecision A} (seen l : list A) :
  drop_duplicates_from seen l `sublist_of` l.
Proof.
  revert seen; induction l as [|y l IH]; intros seen; cbn; [constructor|].
  destruct (decide (y ∈ seen)); by constructor.
Qed.

Lemma drop_duplicates_elem {A : Type} `{EqDecision A} (l : list A) (x : A) :
  x ∈ drop_duplicates l ↔ x ∈ l.
Proof.
  unfold drop_duplicates. rewrite drop_duplicates_from_elem.
  split; [tauto | intros ?; split; [done | by intros ?%elem_of_nil]].
Qed.

Lemma groupby_to_dict_lookup (l : list (cell * cell)) (code : string) :
  groupby_to_dict l !! code =
  match group l code with [] => None | g => Some g end.
Proof.
  unfold group. induction l as [|[p k] l IH]; cbn [foldr groupby_to_dict]; [done|].
  fold (groupby_to_dict l). cbn [snd fst List.filter].
  destruct k as [|c]; cbn [cell_eqb]; [exact IH|].
  destruct (String.eqb_spec c code) as [->|Hne].
  - rewrite lookup_insert_eq, IH. cbn [map fst].
    by destruct (map fst (List.filter _ l)).
  - by rewrite lookup_insert_ne.
Qed.

Lemma zip_map_rows {A B C : Type} (f : A → B) (g : A → C) (l : list A) :
  zip (map f l) (map g l) = map (λ x, (f x, g x)) l.
Proof. induction l as [|x l IH]; cbn; [done|]. by rewrite IH. Qed.

Lemma index_of_lookup c cols i :
  index_of c cols = Some i → cols !! i = Some c.
Proof.
  revert i; induction cols as [|c' cols IH]; intros i; cbn; [done|].
  destruct (String.eqb_spec c c') as [->|_]; [by intros [= <-]|].
  destruct (index_of c cols) as [j|]; [|done]. cbn. intros [= <-]. by apply IH.
Qed.

Lemma index_of_None c cols : index_of c cols = None ↔ c ∉ cols.
Proof.
  induction cols as [|c' cols IH]; cbn.
  - split; [intros _ ?%elem_of_nil; done | done].
  - rewrite elem_of_cons. destruct (String.eqb_spec c c') as [->|Hne].
    + split; [done | intros H; exfalso; apply H; by left].
    + destruct (index_of c cols); cbn.
      * split; [done|]. intros H. exfalso. destruct IH as [_ IH].
        enough (Some n = None) by done. apply IH. tauto.
      * split; [|done]. intros _ [?|?]; [done|]. by apply IH.
Qed.

(** The value of [create_dictionary] on a table that has both columns. *)
Lemma create_dictionary_value df ip iu :
  index_of "peptide_sequence" (columns df) = Some ip →
  index_of "uniprot_id" (columns df) = Some iu →
  create_dictionary df =
    Ok (groupby_to_dict
          (map (λ r, (r.1, protein_code r.2))
             (drop_duplicates
                (map (λ r, (cell_at ip r.2, cell_at iu r.2)) (rows df))))).
Proof.
  intros Hp Hu. unfold create_dictionary, getitem. rewrite Hp, Hu.
  rewrite !bind_Ok. by rewrite zip_map_rows.
Qed.

Lemma create_dictionary_inv df d :
  create_dictionary df = Ok d →
  ∃ ip iu, index_of "peptide_sequence" (columns df) = Some ip ∧
           index_of "uniprot_id" (columns df) = Some iu.
Proof.
  unfold create_dictionary, getitem.
  destruct (index_of "peptide_sequence" _) as [ip|]; [|done].
  destruct (index_of "uniprot_id" _) as [iu|]; [|done]. eauto.
Qed.

(** ** Protein codes *)

Lemma append_assoc (a b c : string) : (a +:+ b) +:+ c = a +:+ (b +:+ c).
Proof. induction a as [|x a IH]; [done|]. by rewrite !append_cons, IH. Qed.

Lemma no_slash_app a b :
  no_slash (a +:+ b) = no_slash a && no_slash b.
Proof.
  induction a as [|c a IH]; [done|]. rewrite append_cons. cbn [no_slash].
  by rewrite IH, andb_assoc.
Qed.

Lemma split_on_no_slash tok s :
  no_slash tok = true →
  Forall (λ t, no_slash t = true) (split_on "/" tok s).
Proof.
  revert tok; induction s as [|c s IH]; intros tok Htok; cbn [split_on].
  - by constructor.
  - destruct (Ascii.eqb c "/") eqn:E.
    + constructor; [done | by apply IH].
    + apply IH. rewrite no_slash_app, Htok. cbn. by rewrite E.
Qed.

Lemma split_on_last_Some sep tok s : is_Some (last (split_on sep tok s)).
Proof.
  revert tok; induction s as [|c s IH]; intros tok; cbn [split_on]; [by eexists|].
  destruct (Ascii.eqb c sep); [|apply IH].
  rewrite last_cons. destruct (IH "") as [x ->]. by eexists.
Qed.

Lemma split_on_whole tok s :
  no_slash s = true → split_on "/" tok s = [tok +:+ s].
Proof.
  revert tok; induction s as [|c s IH]; intros tok; cbn [split_on no_slash].
  - by rewrite append_nil_r.
  - intros [Hc Hs]%andb_prop. apply negb_true_iff in Hc. rewrite Hc.
    by rewrite IH, append_snoc.
Qed.

Lemma split_on_last_app tok a w :
  last (split_on "/" tok (a +:+ String "/" w)) = last (split_on "/" "" w).
Proof.
  revert tok; induction a as [|c a IH]; intros tok.
  - rewrite append_nil. cbn [split_on]. rewrite Ascii.eqb_refl, last_cons.
    by destruct (split_on_last_Some "/" "" w) as [x ->].
  - rewrite append_cons. cbn [split_on]. destruct (Ascii.eqb c "/"); [|apply IH].
    rewrite last_cons, IH.
    by destruct (split_on_last_Some "/" "" w) as [x ->].
Qed.

Lemma protein_code_no_slash x code :
  protein_code x = Str code → no_slash code = true.
Proof.
  destruct x as [|s]; [done|]. unfold protein_code, str_last.
  destruct (last _) as [t|] eqn:E; [|done]. intros [= <-].
  apply last_Some in E as [l' E].
  pose proof (split_on_no_slash "" s eq_refl) as H. rewrite E in H.
  rewrite Forall_app, Forall_singleton in H. tauto.
Qed.

(** X1.  The protein code of an identifier is the text after its last
    [/]: an identifier without [/] is its own code, [a/w] with no [/] in
    [w] has code [w], and no code contains a [/]; the code of a string is
    never NaN, and NaN has none. *)
Theorem protein_code_last_segment :
  (∀ w, no_slash w = true → protein_code (Str w) = Str w) ∧
  (∀ a w, no_slash w = true →
          protein_code (Str (a +:+ String "/" w)) = Str w) ∧
  (∀ x code, protein_code x = Str code → no_slash code = true) ∧
  (∀ s, ∃ code, protein_code (Str s) = Str code) ∧
  protein_code NaN = NaN.
Proof.
  split; [|split; [|split; [|split; [|done]]]].
  - intros w Hw. unfold protein_code. by rewrite split_on_whole.
  - intros a w Hw. unfold protein_code, str_last.
    by rewrite split_on_last_app, split_on_whole.
  - apply protein_code_no_slash.
  - intros s. unfold protein_code, str_last.
    destruct (split_on_last_Some "/" "" s) as [x ->]. by exists x.
Qed.

Lemma protein_code_last_segment_witness :
  protein_code (Str "P12345") = Str "P12345" ∧
  protein_code (Str ("http://x/uniprot" +:+ String "/" "P12345")) = Str "P12345".
Proof.
  destruct protein_code_last_segment as (Hwhole & Hlast & _).
  split; [apply Hwhole | apply Hlast]; reflexivity.
Defined.

(** ** Groups *)

Lemma filter_sublist {A : Type} (f : A → bool) (l : list A) :
  List.filter f l `sublist_of` l.
Proof.
  induction l as [|x l IH]; cbn; [constructor|]. destruct (f x); by constructor.
Qed.

Lemma sublist_map {A B : Type} (f : A → B) (l k : list A) :
  l `sublist_of` k → map f l `sublist_of` map f k.
Proof. induction 1; cbn; by constructor. Qed.

Lemma sublist_filter_mono {A : Type} (f : A → bool) (l k : list A) :
  l `sublist_of` k → List.filter f l `sublist_of` List.filter f k.
Proof.
  induction 1 as [|x l k _ IH|x l k _ IH]; cbn; [constructor| |].
  - destruct (f x); [by constructor | done].
  - destruct (f x); [by constructor | done].
Qed.

Lemma filter_map_comm {A B : Type} (f : B → bool) (g : A → B) (l : list A) :
  List.filter f (map g l) = map g (List.filter (λ x, f (g x)) l).
Proof.
  induction l as [|x l IH]; cbn; [done|]. destruct (f (g x)); cbn; by rewrite IH.
Qed.

Lemma NoDup_map_inj_on {A B : Type} (h : A → B) (l : list A) :
  NoDup l → (∀ x y, x ∈ l → y ∈ l → h x = h y → x = y) → NoDup (map h l).
Proof.
  induction 1 as [|x l Hx Hl IH]; cbn; intros Hinj; [constructor|].
  constructor.
  - intros (y & Hxy & Hy%list_elem_of_In)%list_elem_of_In%in_map_iff.
    apply Hx. rewrite (Hinj x y); [done | by left | by right | done].
  - apply IH. intros a b Ha Hb. apply Hinj; by right.
Qed.

Lemma group_elem (l : list (cell * cell)) (code : string) (p : cell) :
  p ∈ group l code ↔ (p, Str code) ∈ l.
Proof.
  unfold group. rewrite !list_elem_of_In, in_map_iff. split.
  - intros ([p' k] & <- & [Hin Hk%cell_eqb_spec]%filter_In). cbn in *. by subst.
  - intros Hin. exists (p, Str code). split; [done|].
    apply filter_In. split; [done|]. by apply cell_eqb_spec.
Qed.

Lemma lookup_group (l : list (cell * cell)) (code : string) (g : list cell) :
  groupby_to_dict l !! code = Some g ↔ group l code = g ∧ g ≠ [].
Proof.
  rewrite groupby_to_dict_lookup. destruct (group l code) as [|x g'].
  - split; [done | by intros [<- ?]].
  - split; [by intros [= <-] | by intros [<- _]].
Qed.

(** The rows [create_dictionary] groups: one per distinct
    (peptide, identifier) pair of the table, the identifier cut down to
    its code. *)
Lemma exported_elem (rws : list (nat * list cell)) ip iu p code :
  (p, Str code) ∈
    map (λ r : cell * cell, (r.1, protein_code r.2))
      (drop_duplicates (map (λ r : nat * list cell,
                               (cell_at ip r.2, cell_at iu r.2)) rws)) ↔
  ∃ r, r ∈ rws ∧ cell_at ip r.2 = p ∧ protein_code (cell_at iu r.2) = Str code.
Proof.
  rewrite list_elem_of_In, in_map_iff. split.
  - intros ([p' u] & [= -> Hu] & Hin%list_elem_of_In).
    apply (proj1 (drop_duplicates_elem _ _)) in Hin.
    apply list_elem_of_In, in_map_iff in Hin as (r & [= <- <-] & Hr).
    exists r. by rewrite list_elem_of_In.
  - intros (r & Hr & <- & Hcode).
    exists (cell_at ip r.2, cell_at iu r.2). split; [by rewrite <-Hcode|].
    apply list_elem_of_In, (proj2 (drop_duplicates_elem _ _)).
    apply list_elem_of_In, in_map_iff.
    exists r. by rewrite <-list_elem_of_In.
Qed.

(** X2.  When [create_dictionary] returns, a peptide is listed under a
    code exactly when some row of the table has that peptide and an
    identifier with that code; the list under a code is a subsequence,
    in table order, of the peptides of the rows with that code. *)
Theorem create_dictionary_members df d :
  create_dictionary df = Ok d →
  ∃ ip iu,
    index_of "peptide_sequence" (columns df) = Some ip ∧
    index_of "uniprot_id" (columns df) = Some iu ∧
    (∀ code p,
       (∃ l, d !! code = Some l ∧ p ∈ l) ↔
       (∃ r, r ∈ rows df ∧ cell_at ip r.2 = p ∧
             protein_code (cell_at iu r.2) = Str code)) ∧
    (∀ code l, d !! code = Some l →
       l `sublist_of`
         map (λ r, cell_at ip r.2)
           (List.filter
              (λ r, cell_eqb (protein_code (cell_at iu r.2)) code) (rows df))).
Proof.
  intros Hd. destruct (create_dictionary_inv _ _ Hd) as (ip & iu & Hp & Hu).
  exists ip, iu. rewrite (create_dictionary_value df ip iu) in Hd by done.
  injection Hd as <-. split; [done|]. split; [done|]. split.
  - intros code p. rewrite <-exported_elem, <-group_elem. split.
    + by intros (l & [<- _]%lookup_group & Hp').
    + intros Hin. eexists. split; [|exact Hin].
      apply lookup_group. split; [done|]. intros E. rewrite E in Hin.
      by apply elem_of_nil in Hin.
  - intros code l [<- _]%lookup_group. unfold group.
    rewrite !filter_map_comm, !map_map. cbn [fst snd].
    rewrite <-(map_map (λ r : nat * list cell, (cell_at ip r.2, cell_at iu r.2))
                 (λ pu : cell * cell, pu.1)).
    rewrite <-(filter_map_comm
                 (λ pu : cell * cell, cell_eqb (protein_code pu.2) code)
                 (λ r : nat * list cell, (cell_at ip r.2, cell_at iu r.2))).
    apply sublist_map, sublist_filter_mono, drop_duplicates_from_sublist.
Qed.

Lemma create_dictionary_members_witness :
  ∃ l, d0 !! "P12345" = Some l ∧
       Str "BBB" ∈ l.
Proof.
  destruct (create_dictionary_members df0
              d0
              ltac:(vm_compute; reflexivity))
    as (ip & iu & Hp & Hu & Hmem & _).
  cbv in Hp, Hu. injection Hp as <-. injection Hu as <-.
  apply Hmem.
  exists (1, [Str "BBB"; Str "http://x/uniprot/P12345"; Str "Bcell"]).
  split; [right; left | split; reflexivity].
Defined.

(** X3.  In the map [create_dictionary] returns no key contains a [/]
    and no key is mapped to an empty list. *)
Theorem create_dictionary_keys_and_lists df d code l :
  create_dictionary df = Ok d → d !! code = Some l →
  no_slash code = true ∧ l ≠ [].
Proof.
  intros Hd Hl.
  destruct (create_dictionary_inv _ _ Hd) as (ip & iu & Hp & Hu).
  rewrite (create_dictionary_value df ip iu) in Hd by done.
  injection Hd as <-. apply lookup_group in Hl as [<- Hne]. split; [|done].
  destruct (group _ code) as [|p g] eqn:E; [done|].
  assert (p ∈ group
            (map (λ r : cell * cell, (r.1, protein_code r.2))
               (drop_duplicates
                  (map (λ r : nat * list cell, (cell_at ip r.2, cell_at iu r.2))
                     (rows df)))) code) as Hin by (rewrite E; by left).
  apply group_elem, exported_elem in Hin as (r & _ & _ & Hcode).
  by eapply protein_code_no_slash.
Qed.

Lemma create_dictionary_keys_and_lists_witness :
  no_slash "P12345" = true ∧ [Str "AAA"; Str "BBB"] ≠ [].
Proof.
  apply (create_dictionary_keys_and_lists df0
           d0).
  - vm_compute; reflexivity.
  - reflexivity.
Defined.

(** X4.  When no two identifiers of the table that differ share a code,
    the peptides listed under a code are pairwise distinct. *)
Theorem create_dictionary_distinct_peptides df d iu :
  create_dictionary df = Ok d →
  index_of "uniprot_id" (columns df) = Some iu →
  (∀ r1 r2, r1 ∈ rows df → r2 ∈ rows df →
     protein_code (cell_at iu r1.2) = protein_code (cell_at iu r2.2) →
     cell_at iu r1.2 = cell_at iu r2.2) →
  ∀ code l, d !! code = Some l → NoDup l.
Proof.
  intros Hd Hu Hinj code l Hl.
  destruct (create_dictionary_inv _ _ Hd) as (ip & iu' & Hp & Hu').
  assert (iu' = iu) as -> by congruence.
  rewrite (create_dictionary_value df ip iu) in Hd by done.
  injection Hd as <-. apply lookup_group in Hl as [<- _]. unfold group.
  rewrite filter_map_comm, map_map. cbn [fst snd].
  set (P := map (λ r : nat * list cell, (cell_at ip r.2, cell_at iu r.2))
              (rows df)).
  assert (∀ pu, pu ∈ drop_duplicates P →
            ∃ r, r ∈ rows df ∧ pu = (cell_at ip r.2, cell_at iu r.2)) as Hrows.
  { intros pu Hpu. apply (proj1 (drop_duplicates_elem _ _)) in Hpu.
    apply list_elem_of_In, in_map_iff in Hpu as (r & <- & Hr).
    exists r. by rewrite list_elem_of_In. }
  apply NoDup_map_inj_on.
  - eapply sublist_NoDup; [|apply filter_sublist].
    apply drop_duplicates_from_NoDup.
  - intros [p1 u1] [p2 u2] H1 H2 Heq. cbn in Heq. subst p2.
    apply list_elem_of_In, filter_In in H1 as [H1%list_elem_of_In E1%cell_eqb_spec].
    apply list_elem_of_In, filter_In in H2 as [H2%list_elem_of_In E2%cell_eqb_spec].
    cbn in E1, E2.
    destruct (Hrows _ H1) as (r1 & Hr1 & [= -> ->]).
    destruct (Hrows _ H2) as (r2 & Hr2 & [= Hp2 ->]).
    f_equal. apply Hinj; [done..|]. congruence.
Qed.

Lemma create_dictionary_distinct_peptides_witness :
  NoDup [Str "AAA"; Str "BBB"].
Proof.
  apply (create_dictionary_distinct_peptides df0
           d0 1
           ltac:(vm_compute; reflexivity) eq_refl) with (code := "P12345").
  - intros r1 r2 H1 H2 _.
    repeat (apply elem_of_cons in H1 as [->|H1]);
      repeat (apply elem_of_cons in H2 as [->|H2]);
      try reflexivity; try (by apply elem_of_nil in H1);
      by apply elem_of_nil in H2.
  - reflexivity.
Defined.

Lemma create_dictionary_elem df d ip iu code p :
  create_dictionary df = Ok d →
  index_of "peptide_sequence" (columns df) = Some ip →
  index_of "uniprot_id" (columns df) = Some iu →
  (∃ l, d !! code = Some l ∧ p ∈ l) ↔
  (∃ r, r ∈ rows df ∧ cell_at ip r.2 = p ∧
        protein_code (cell_at iu r.2) = Str code).
Proof.
  intros Hd Hp Hu. rewrite (create_dictionary_value df ip iu) in Hd by done.
  injection Hd as <-. rewrite <-exported_elem, <-group_elem. split.
  - by intros (l & [<- _]%lookup_group & Hp').
  - intros Hin. eexists. split; [|exact Hin].
    apply lookup_group. split; [done|]. intros E. rewrite E in Hin.
    by apply elem_of_nil in Hin.
Qed.

(** X5.  Filtering never adds to the result: when [create_dictionary]
    returns on a table it returns on every table [apply_conditions]
    derives from it, and each code of the filtered map is a code of the
    unfiltered one, with no peptide the unfiltered list does not have. *)
Theorem filtering_never_adds df C df' d :
  apply_conditions df C = Ok df' → create_dictionary df = Ok d →
  ∃ d', create_dictionary df' = Ok d' ∧
        ∀ code l', d' !! code = Some l' →
          ∃ l, d !! code = Some l ∧ ∀ p, p ∈ l' → p ∈ l.
Proof.
  intros [Hcols Hsub]%apply_conditions_narrows Hd.
  destruct (create_dictionary_inv _ _ Hd) as (ip & iu & Hp & Hu).
  assert (∃ d', create_dictionary df' = Ok d') as [d' Hd'].
  { rewrite (create_dictionary_value df' ip iu) by congruence. eauto. }
  exists d'. split; [done|]. intros code l' Hl'.
  assert (∀ p, p ∈ l' → ∃ l, d !! code = Some l ∧ p ∈ l) as Hin.
  { intros p Hpl.
    apply (create_dictionary_elem df d ip iu code p); [done..|].
    destruct (proj1 (create_dictionary_elem df' d' ip iu code p Hd'
                       ltac:(congruence) ltac:(congruence)))
      as (r & Hr & Hrp & Hrc); [eauto|].
    exists r. split; [|done]. by eapply sublist_subseteq. }
  destruct l' as [|p0 l'].
  { rewrite (create_dictionary_value df' ip iu) in Hd' by congruence.
    injection Hd' as <-. by apply lookup_group in Hl' as [_ ?]. }
  destruct (Hin p0) as (l & Hl & _); [by left|].
  exists l. split; [done|]. intros p Hpl.
  destruct (Hin p Hpl) as (l2 & Hl2 & Hpl2). congruence.
Qed.

Lemma filtering_never_adds_witness :
  ∃ d', create_dictionary
          (mkDataFrame (columns df0)
             [(0, [Str "AAA"; Str "http://x/uniprot/P12345"; Str "Tcell"])])
        = Ok d' ∧
        ∀ code l', d' !! code = Some l' →
          ∃ l, d0 !! code = Some l ∧ ∀ p, p ∈ l' → p ∈ l.
Proof.
  apply (filtering_never_adds df0
           [("Category", Some ("match", OStr "Tcell"))]).
  - reflexivity.
  - vm_compute; reflexivity.
Defined.

(** X6.  [create_dictionary] needs the two columns and nothing else: it
    raises [KeyError] for [peptide_sequence] when that column is absent,
    for [uniprot_id] when only that one is, and returns a map otherwise,
    the empty map when the table has no rows. *)
Theorem create_dictionary_columns df :
  ("peptide_sequence" ∉ columns df →
     create_dictionary df = Raise (KeyError "peptide_sequence")) ∧
  ("peptide_sequence" ∈ columns df → "uniprot_id" ∉ columns df →
     create_dictionary df = Raise (KeyError "uniprot_id")) ∧
  ("peptide_sequence" ∈ columns df → "uniprot_id" ∈ columns df →
     (∃ d, create_dictionary df = Ok d) ∧
     (rows df = [] → create_dictionary df = Ok ∅)).
Proof.
  unfold create_dictionary, getitem. repeat split.
  - intros ->%index_of_None. done.
  - intros Hp ->%index_of_None.
    destruct (index_of "peptide_sequence" _) eqn:E; [done|].
    by apply index_of_None in E.
  - destruct (index_of "peptide_sequence" _) eqn:E1;
      [|by apply index_of_None in E1].
    destruct (index_of "uniprot_id" _) eqn:E2;
      [|by apply index_of_None in E2].
    rewrite !bind_Ok. eauto.
  - intros Hrows.
    destruct (index_of "peptide_sequence" _) eqn:E1;
      [|by apply index_of_None in E1].
    destruct (index_of "uniprot_id" _) eqn:E2;
      [|by apply index_of_None in E2].
    by rewrite Hrows.
Qed.

Lemma create_dictionary_columns_witness :
  create_dictionary (mkDataFrame ["peptide_sequence"; "Category"] [])
    = Raise (KeyError "uniprot_id") ∧
  create_dictionary (mkDataFrame ["peptide_sequence"; "uniprot_id"] []) = Ok ∅.
Proof.
  split.
  - apply (create_dictionary_columns
             (mkDataFrame ["peptide_sequence"; "Category"] [])).
    + by left.
    + cbn. intros H. repeat (apply elem_of_cons in H as [H|H]; [done|]).
      by apply elem_of_nil in H.
  - apply (create_dictionary_columns
             (mkDataFrame ["peptide_sequence"; "uniprot_id"] []));
      [by left | by right; left | done].
Defined.

(** * Further properties of the Row Filter *)

(** X7.  An entry whose value is [None] has no effect, wherever it
    stands in the specification. *)
Theorem none_entry_has_no_effect df pre post c :
  apply_conditions df (pre ++ (c, None) :: post) =
  apply_conditions df (pre ++ post).
Proof.
  rewrite !apply_conditions_app.
  destruct (apply_conditions df pre); [|done]. by rewrite !bind_Ok.
Qed.

(** X8.  A specification is applied piece by piece: filtering with
    [C1 ++ C2] is filtering with [C1] and then, when that returns, with
    [C2] on its result; an error in [C1] is the error of the whole. *)
Theorem apply_conditions_sequential df C1 C2 :
  apply_conditions df (C1 ++ C2) =
  apply_conditions df C1 ≫= λ df', apply_conditions df' C2.
Proof. apply apply_conditions_app. Qed.

Lemma index_of_elem c cols i : index_of c cols = Some i → c ∈ cols.
Proof.
  intros H. destruct (index_of c cols) eqn:E; [|done].
  destruct (decide (c ∈ cols)) as [|Hn]; [done|].
  apply index_of_None in Hn. congruence.
Qed.

Lemma apply_conditions_columns df C df' c cv :
  apply_conditions df C = Ok df' →
  (c, Some cv) ∈ C → recognized cv.1 = true → c ∈ columns df.
Proof.
  revert df; induction C as [|[c0 [cv0|]] C IH]; intros df; cbn [apply_conditions].
  - by intros _ ?%elem_of_nil.
  - intros (df1 & H1 & H2)%bind_inv_Ok [[= -> ->]|Hin]%elem_of_cons Hr.
    + destruct (index_of c0 (columns df)) eqn:E; [by eapply index_of_elem|].
      by rewrite apply_condition_missing in H1.
    + apply apply_condition_narrows in H1 as [<- _]. by apply (IH df1).
  - intros H [[=]|Hin]%elem_of_cons Hr. by apply (IH df).
Qed.

(** X9.  When [apply_conditions] returns, every entry that carries one
    of the five operators names a column of the table: a filter on an
    absent column raises [KeyError], also when the table has no rows. *)
Theorem filtered_columns_exist df C :
  (∀ df' c cv, apply_conditions df C = Ok df' →
     (c, Some cv) ∈ C → recognized cv.1 = true → c ∈ columns df) ∧
  (∀ pre post c cv, forallb inert pre = true → recognized cv.1 = true →
     c ∉ columns df → C = pre ++ (c, Some cv) :: post →
     apply_conditions df C = Raise (KeyError c)).
Proof.
  split.
  - intros df' c cv. apply apply_conditions_columns.
  - intros pre post c cv Hpre Hr Hc ->. rewrite apply_conditions_app.
    assert (apply_conditions df pre = Ok df) as ->.
    { clear -Hpre. induction pre as [|[c0 [[op v]|]] pre IH]; cbn [forallb] in *;
        [done| |].
      - apply andb_prop in Hpre as [Hop%negb_true_iff Hpre].
        cbn [apply_conditions]. cbn in Hop.
        rewrite apply_condition_unrecognized by done. by apply IH.
      - apply andb_prop in Hpre as [_ Hpre]. by apply IH. }
    rewrite bind_Ok. cbn [apply_conditions].
    rewrite apply_condition_missing; [done..|]. by apply index_of_None.
Qed.

Lemma filtered_columns_exist_witness :
  "Category" ∈ columns df0 ∧
  apply_conditions (mkDataFrame (columns df0) [])
    [("Description", None); ("Host", Some ("match", OStr "human"))]
  = Raise (KeyError "Host").
Proof.
  split.
  - apply (proj1 (filtered_columns_exist df0
                    [("Category", Some ("match", OStr "Tcell"))])
             _ "Category" ("match", OStr "Tcell") eq_refl);
      [by left | reflexivity].
  - apply (proj2 (filtered_columns_exist (mkDataFrame (columns df0) [])
                    [("Description", None); ("Host", Some ("match", OStr "human"))])
             [("Description", None)] [] "Host" ("match", OStr "human"));
      [reflexivity | reflexivity | | reflexivity].
    cbn. intros H. repeat (apply elem_of_cons in H as [H|H]; [done|]).
    by apply elem_of_nil in H.
Defined.

(** X10.  Conditions compose by conjunction: when a well-typed
    specification returns, a row of the input survives exactly when it
    passes the test of every entry. *)
Theorem surviving_rows_pass_every_test df C df' :
  forallb well_typed_entry C = true → apply_conditions df C = Ok df' →
  ∀ r, r ∈ rows df' ↔
       r ∈ rows df ∧ ∀ e, e ∈ C → keeps (columns df) e r = true.
Proof.
  intros Hwt ->%apply_conditions_keeps r; [|done]. cbn [rows].
  rewrite list_elem_of_In, filter_In, <-list_elem_of_In.
  unfold keeps_all. rewrite forallb_forall.
  split; intros [Hr H]; (split; [done|]); intros e He; apply H;
    by apply list_elem_of_In.
Qed.

Lemma surviving_rows_pass_every_test_witness :
  (0, [Str "AAA"; Str "http://x/uniprot/P12345"; Str "Tcell"])
    ∈ [(0, [Str "AAA"; Str "http://x/uniprot/P12345"; Str "Tcell"])] ↔
  (0, [Str "AAA"; Str "http://x/uniprot/P12345"; Str "Tcell"]) ∈ rows df0 ∧
  ∀ e, e ∈ [("Category", Some ("match", OStr "Tcell"))] →
       keeps (columns df0) e
         (0, [Str "AAA"; Str "http://x/uniprot/P12345"; Str "Tcell"]) = true.
Proof.
  apply (surviving_rows_pass_every_test df0
           [("Category", Some ("match", OStr "Tcell"))]
           (mkDataFrame (columns df0)
              [(0, [Str "AAA"; Str "http://x/uniprot/P12345"; Str "Tcell"])]));
    reflexivity.
Defined.

Lemma forallb_Permutation {A : Type} (f : A → bool) (l l' : list A) :
  l ≡ₚ l' → forallb f l = forallb f l'.
Proof.
  induction 1 as [|x l l' _ IH|x y l|l1 l2 l3 _ IH1 _ IH2]; cbn.
  - done.
  - by rewrite IH.
  - by destruct (f x), (f y).
  - congruence.
Qed.

(** X11.  The order of the entries does not matter for the rows kept:
    on an admissible input every reordering of the specification
    returns the same table, and two reorderings of a well-typed
    specification that both return, return the same table. *)
Theorem apply_conditions_order_irrelevant df C C' :
  C ≡ₚ C' →
  (admissible df C = true → apply_conditions df C' = apply_conditions df C) ∧
  (forallb well_typed_entry C = true →
   ∀ df1 df2, apply_conditions df C = Ok df1 → apply_conditions df C' = Ok df2 →
              df1 = df2).
Proof.
  intros Hperm.
  assert (∀ r, keeps_all (columns df) C r = keeps_all (columns df) C' r) as Hk.
  { intros r. by apply forallb_Permutation. }
  split.
  - intros Hadm. rewrite !apply_conditions_total; [|done|].
    + do 2 f_equal. apply filter_ext. intros r. by rewrite Hk.
    + unfold admissible in *. by rewrite <-(forallb_Permutation _ _ _ Hperm).
  - intros Hwt df1 df2 ->%apply_conditions_keeps ->%apply_conditions_keeps;
      [| by rewrite <-(forallb_Permutation _ _ _ Hperm) | done].
    f_equal. apply filter_ext. intros r. by rewrite Hk.
Qed.

Lemma apply_conditions_order_irrelevant_witness :
  apply_conditions df0
    [("peptide_sequence", Some ("contains", OStr "A"));
     ("Category", Some ("not_match", OStr "Bcell"))]
  = apply_conditions df0
    [("Category", Some ("not_match", OStr "Bcell"));
     ("peptide_sequence", Some ("contains", OStr "A"))].
Proof.
  apply (apply_conditions_order_irrelevant df0
    [("Category", Some ("not_match", OStr "Bcell"));
     ("peptide_sequence", Some ("contains", OStr "A"))]
    [("peptide_sequence", Some ("contains", OStr "A"));
     ("Category", Some ("not_match", OStr "Bcell"))]).
  - apply perm_swap.
  - reflexivity.
Defined.

(** X12.  Empty operands: on a column without NaN, [contains ""] keeps
    every row and [not_contains ""] none; [is_in] with an empty sequence
    keeps none, whatever the column holds. *)
Theorem empty_operands df c i :
  index_of c (columns df) = Some i →
  (forallb (λ r, notna (cell_at i r.2)) (rows df) = true →
     apply_conditions df [(c, Some ("contains", OStr ""))] = Ok df ∧
     apply_conditions df [(c, Some ("not_contains", OStr ""))]
       = Ok (mkDataFrame (columns df) [])) ∧
  apply_conditions df [(c, Some ("is_in", OSeq []))]
    = Ok (mkDataFrame (columns df) []).
Proof.
  intros Hi.
  assert (∀ s, str_in "" s = true) as Hempty by (by intros [|? ?]).
  assert (∀ (f : nat * list cell → bool) (l : list (nat * list cell)),
            (∀ r, In r l → f r = false) → List.filter f l = []) as Hnone.
  { intros f l Hf. induction l as [|r l IH]; cbn; [done|].
    rewrite Hf by (by left). apply IH. intros r' Hr'. apply Hf. by right. }
  split; [intros Hna; split|].
  - rewrite (apply_conditions_single df c _ i) by done.
    destruct df as [cols l]. cbn [columns rows] in *. f_equal. f_equal.
    rewrite forallb_forall in Hna.
    induction l as [|r l IH]; cbn; [done|].
    specialize (Hna r (or_introl eq_refl)) as Hr.
    destruct (cell_at i r.2); [done|]. cbn. rewrite Hempty.
    f_equal. apply IH. intros r' Hr'. apply Hna. by right.
  - rewrite (apply_conditions_single df c _ i) by done.
    f_equal. f_equal. apply Hnone. intros r _. cbn.
    destruct (cell_at i r.2); [done|]. by rewrite Hempty.
  - rewrite (apply_conditions_single df c _ i) by done.
    f_equal. f_equal. apply Hnone. intros r _. cbn.
    by destruct (cell_at i r.2).
Qed.

Lemma empty_operands_witness :
  (apply_conditions df0 [("Category", Some ("contains", OStr ""))] = Ok df0 ∧
   apply_conditions df0 [("Category", Some ("not_contains", OStr ""))]
     = Ok (mkDataFrame (columns df0) [])) ∧
  apply_conditions df0 [("Category", Some ("is_in", OSeq []))]
    = Ok (mkDataFrame (columns df0) []).
Proof.
  destruct (empty_operands df0 "Category" 2 eq_refl) as [H1 H2].
  split; [exact (H1 eq_refl) | exact H2].
Defined.

(** * Further properties of the Table Loader *)

Lemma read_csv_inv fs path usecols df :
  (read_csv fs path usecols).2 = Ok df →
  ∃ f, fs path = Some f ∧
       (∀ cols, usecols = Some cols →
                forallb (λ c, str_mem c (header f)) cols = true) ∧
       df = mkDataFrame
              (map (λ i, default "" (header f !! i))
                 (kept_positions (header f) usecols))
              (label_rows (map (project (kept_positions (header f) usecols))
                             (records f))).
Proof.
  unfold read_csv; cbn. destruct (fs path) as [f|]; [|done].
  destruct usecols as [cols|].
  - destruct (forallb _ cols) eqn:E; [|done]. intros [= <-]. exists f.
    split; [done|]. split; [by intros ? [= <-] | done].
  - intros [= <-]. exists f. split; [done|]. split; [done | done].
Qed.

(** The table a successful load returns, in either mode. *)
Lemma generate_df_table fs path cd iedb df :
  (generate_df fs path cd iedb).2 = Ok df →
  ∃ f i, fs path = Some f ∧
    (iedb = true → ∃ d, cd = Some d ∧
       forallb (λ c, str_mem c (header f)) (map fst d) = true) ∧
    let pos := kept_positions (header f) (usecols_of cd iedb) in
    let hdr := map (λ i, default "" (header f !! i)) pos in
    columns df = (if iedb then map rename_column hdr else hdr) ∧
    index_of (if iedb then "peptide_sequence" else "uniprot_id") (columns df)
      = Some i ∧
    rows df = label_rows
      (List.filter (forallb notna)
         (map (loaded_cells pos i (if iedb then first_token else replace_regex))
            (records f))).
Proof.
  rewrite generate_df_value.
  intros (df1 & Hload & [= <-])%bind_inv_Ok.
  cbn [rows columns reset_index dropna]. destruct iedb.
  - apply bind_inv_Ok in Hload as (u & Hu & Hload).
    destruct cd as [d|]; [|done]. injection Hu as <-.
    apply bind_inv_Ok in Hload as (df0' & (f & Hf & Hcols & ->)%read_csv_inv & Hload).
    apply update_column_rows in Hload as (i & Hi & -> & ->).
    cbn [rows columns rename] in *.
    exists f, i. split; [done|]. split; [eauto|]. split; [done|]. split; [done|].
    rewrite (loaded_rows_snd (λ r, <[i := first_token (cell_at i r)]> r)
               (forallb notna)).
    by rewrite map_map.
  - apply bind_inv_Ok in Hload as (df0' & (f & Hf & Hcols & ->)%read_csv_inv & Hload).
    apply update_column_rows in Hload as (i & Hi & -> & ->).
    cbn [rows columns] in *.
    exists f, i. split; [done|]. split; [done|]. split; [done|]. split; [done|].
    rewrite (loaded_rows_snd (λ r, <[i := replace_regex (cell_at i r)]> r)
               (forallb notna)).
    by rewrite map_map.
Qed.

Lemma index_of_lt c cols i : index_of c cols = Some i → i < length cols.
Proof. intros H%index_of_lookup. by eapply lookup_lt_Some. Qed.

Lemma loaded_cells_length pos i g r : length (loaded_cells pos i g r) = length pos.
Proof. unfold loaded_cells, project. by rewrite length_insert, length_map. Qed.

Lemma cell_at_lookup i (r : list cell) x : r !! i = Some x → cell_at i r = x.
Proof. intros H. unfold cell_at. by apply nth_lookup_Some with (d := NaN) in H. Qed.

Lemma cell_at_notna i (r : list cell) :
  i < length r → forallb notna r = true → notna (cell_at i r) = true.
Proof.
  intros Hi Hr. destruct (lookup_lt_is_Some_2 r i Hi) as [x Hx].
  rewrite (cell_at_lookup _ _ _ Hx). rewrite forallb_forall in Hr.
  apply Hr. apply list_elem_of_In. by eapply list_elem_of_lookup_2.
Qed.

Lemma label_rows_elem (l : list (list cell)) (r : nat * list cell) :
  r ∈ label_rows l → r.2 ∈ l.
Proof.
  intros Hr%list_elem_of_In%(in_map snd). rewrite label_rows_snd in Hr.
  by apply list_elem_of_In.
Qed.



(** * Further properties of the Orchestrator *)

Ltac io_simpl :=
  repeat first
    [ rewrite io_bind_snd | rewrite bind_Ok
    | progress cbn [print lift snd io_ret] ].

Lemma extract_peptide_data_value fs path cd iedb :
  (extract_peptide_data fs path cd iedb).2 =
  (df_filtered ← (if iedb then
                    df ← (generate_df fs path cd true).2;
                    c ← dict_items cd;
                    apply_conditions df c
                  else (generate_df fs path None false).2);
   create_dictionary df_filtered).
Proof.
  unfold extract_peptide_data. destruct iedb; io_simpl.
  - destruct (generate_df fs path cd true).2 as [df|e]; [|done]. io_simpl.
    destruct (dict_items cd ≫= _) as [df'|e]; [|done]. io_simpl.
    by destruct (create_dictionary df').
  - destruct (generate_df fs path None false).2 as [df|e]; [|done]. io_simpl.
    by destruct (create_dictionary df).
Qed.

Lemma extract_iedb_inv fs path cd d :
  (extract_peptide_data fs path cd true).2 = Ok d →
  ∃ c df df', cd = Some c ∧ (generate_df fs path cd true).2 = Ok df ∧
              apply_conditions df c = Ok df' ∧ create_dictionary df' = Ok d.
Proof.
  rewrite extract_peptide_data_value.
  intros (df' & (df & Hdf & (c & Hc & Hf)%bind_inv_Ok)%bind_inv_Ok & Hd)%bind_inv_Ok.
  destruct cd as [c'|]; [|done]. injection Hc as ->. by exists c, df, df'.
Qed.

Lemma rename_column_fresh c :
  rename_column c ≠ "Description" ∧ rename_column c ≠ "Parent.Protein.IRI".
Proof.
  unfold rename_column.
  destruct (String.eqb_spec c "Description") as [->|H1]; [done|].
  destruct (String.eqb_spec c "Parent.Protein.IRI") as [->|H2]; done.
Qed.

Lemma rename_column_inv c :
  (rename_column c = "peptide_sequence" →
     c = "Description" ∨ c = "peptide_sequence") ∧
  (rename_column c = "uniprot_id" →
     c = "Parent.Protein.IRI" ∨ c = "uniprot_id").
Proof.
  unfold rename_column.
  destruct (String.eqb_spec c "Description") as [->|H1]; [by split; auto|].
  destruct (String.eqb_spec c "Parent.Protein.IRI") as [->|H2]; by split; auto.
Qed.

Lemma kept_header_elem hdr cols x :
  In x (map (λ i, default "" (hdr !! i)) (kept_positions hdr (Some cols))) →
  x ∈ cols ∧ x ∈ hdr.
Proof.
  intros (i & <- & [_ Hi]%filter_In)%in_map_iff.
  destruct (hdr !! i) as [c|] eqn:E; [|done]. cbn.
  split; [by apply str_mem_spec | by eapply list_elem_of_lookup_2].
Qed.

(** X14.  In IEDB mode the loaded table has a [peptide_sequence] column
    and no column named [Description] or [Parent.Protein.IRI] (they are
    renamed), so an entry of the conditions dictionary that filters on
    one of these two names with one of the five operators makes the
    extraction raise: they can only carry [None]. *)
Theorem iedb_renamed_columns_cannot_be_filtered fs path cd :
  (∀ df, (generate_df fs path cd true).2 = Ok df →
     ("Description" ∉ columns df) ∧ ("Parent.Protein.IRI" ∉ columns df) ∧
     "peptide_sequence" ∈ columns df) ∧
  (∀ C c cv, cd = Some C → (c, Some cv) ∈ C → recognized cv.1 = true →
     c = "Description" ∨ c = "Parent.Protein.IRI" →
     ∃ e, (extract_peptide_data fs path cd true).2 = Raise e).
Proof.
  assert (∀ df, (generate_df fs path cd true).2 = Ok df →
     ("Description" ∉ columns df) ∧ ("Parent.Protein.IRI" ∉ columns df) ∧
     "peptide_sequence" ∈ columns df) as Hcols.
  { intros df (f & i & _ & _ & Hc & Hi & _)%generate_df_table. cbn zeta in *.
    repeat split.
    - rewrite Hc. intros (h & E & _)%list_elem_of_In%in_map_iff.
      by destruct (rename_column_fresh h).
    - rewrite Hc. intros (h & E & _)%list_elem_of_In%in_map_iff.
      by destruct (rename_column_fresh h).
    - by eapply index_of_elem. }
  split; [exact Hcols|]. intros C c cv -> Hin Hr Hc.
  destruct (extract_peptide_data fs path (Some C) true).2 as [d|e] eqn:E;
    [|by exists e].
  apply extract_iedb_inv in E as (C' & df & df' & [= <-] & Hdf & Hf & _).
  pose proof (apply_conditions_columns _ _ _ _ _ Hf Hin Hr) as Hcol.
  destruct (Hcols df Hdf) as (H1 & H2 & _). by destruct Hc as [-> | ->].
Qed.

Lemma iedb_renamed_columns_cannot_be_filtered_witness :
  ∃ e, (extract_peptide_data fs0 "iedb.csv"
          (Some [("Description", Some ("contains", OStr "A"));
                 ("Parent.Protein.IRI", None)]) true).2 = Raise e.
Proof.
  apply (proj2 (iedb_renamed_columns_cannot_be_filtered fs0 "iedb.csv"
                  (Some [("Description", Some ("contains", OStr "A"));
                         ("Parent.Protein.IRI", None)]))
           _ "Description" ("contains", OStr "A") eq_refl);
    [by left | reflexivity | by left].
Defined.

(** X15.  When the IEDB extraction returns a map, the conditions
    dictionary was given, each of its keys is a column of the file, and
    its keys include [Description] or [peptide_sequence], and
    [Parent.Protein.IRI] or [uniprot_id]. *)
Theorem iedb_required_keys fs path cd d :
  (extract_peptide_data fs path cd true).2 = Ok d →
  ∃ C f, cd = Some C ∧ fs path = Some f ∧
    (∀ k, k ∈ map fst C → k ∈ header f) ∧
    ("Description" ∈ map fst C ∨ "peptide_sequence" ∈ map fst C) ∧
    ("Parent.Protein.IRI" ∈ map fst C ∨ "uniprot_id" ∈ map fst C).
Proof.
  intros (C & df & df' & -> & Hdf & Hf & Hd)%extract_iedb_inv.
  apply generate_df_table in Hdf as (f & i & Hfs & Hkeys & Hc & Hi & _).
  cbn zeta in *. destruct (Hkeys eq_refl) as (C' & [= <-] & Hall).
  exists C, f. split; [done|]. split; [done|].
  assert (∀ x, x ∈ columns df → ∃ h, h ∈ map fst C ∧ rename_column h = x) as Hfrom.
  { intros x Hx. rewrite Hc in Hx.
    apply list_elem_of_In, in_map_iff in Hx as (h & <- & Hh).
    apply kept_header_elem in Hh as [Hh _]. eauto. }
  split; [|split].
  - intros k Hk%list_elem_of_In. rewrite forallb_forall in Hall.
    by apply str_mem_spec, Hall.
  - destruct (Hfrom "peptide_sequence") as (h & Hh & E);
      [by eapply index_of_elem|].
    apply rename_column_inv in E as [-> | ->]; auto.
  - apply create_dictionary_inv in Hd as (ip & iu & _ & Hu).
    apply apply_conditions_narrows in Hf as [Hcols _]. rewrite Hcols in Hu.
    destruct (Hfrom "uniprot_id") as (h & Hh & E); [by eapply index_of_elem|].
    apply rename_column_inv in E as [-> | ->]; auto.
Qed.

Lemma iedb_required_keys_witness :
  ∃ C f, Some conds0 = Some C ∧ fs0 "iedb.csv" = Some f ∧
    (∀ k, k ∈ map fst C → k ∈ header f) ∧
    ("Description" ∈ map fst C ∨ "peptide_sequence" ∈ map fst C) ∧
    ("Parent.Protein.IRI" ∈ map fst C ∨ "uniprot_id" ∈ map fst C).
Proof.
  apply (iedb_required_keys fs0 "iedb.csv" (Some conds0)
           {["P12345" := [Str "AAA"]]}).
  vm_compute; reflexivity.
Defined.

(** * Peptide tokens *)

Lemma no_space_app a b : no_space (a +:+ b) = no_space a && no_space b.
Proof.
  induction a as [|c a IH]; [done|]. rewrite append_cons. cbn [no_space].
  by rewrite IH, andb_assoc.
Qed.

Lemma split_ws_tokens tok s :
  no_space tok = true →
  Forall (λ t, t ≠ "" ∧ no_space t = true) (split_ws tok s).
Proof.
  revert tok; induction s as [|c s IH]; intros tok Htok; cbn [split_ws].
  - destruct (String.eqb_spec tok ""); [constructor|]. by repeat constructor.
  - destruct (is_space c) eqn:Hc.
    + destruct (String.eqb_spec tok ""); [by apply IH|].
      constructor; [done | by apply IH].
    + apply IH. rewrite no_space_app, Htok. cbn. by rewrite Hc.
Qed.

Lemma split_ws_skip ws s :
  all_space ws = true → split_ws "" (ws +:+ s) = split_ws "" s.
Proof.
  induction ws as [|c ws IH]; [done|]. cbn [all_space].
  intros [Hc Hws]%andb_prop. rewrite append_cons. cbn [split_ws].
  rewrite Hc. cbn. by apply IH.
Qed.

Lemma split_ws_take tok t rest :
  no_space t = true → split_ws tok (t +:+ rest) = split_ws (tok +:+ t) rest.
Proof.
  revert tok; induction t as [|c t IH]; intros tok.
  - by rewrite append_nil, append_nil_r.
  - cbn [no_space]. intros [Hc%negb_true_iff Ht]%andb_prop.
    rewrite append_cons. cbn [split_ws]. rewrite Hc.
    by rewrite IH, append_snoc.
Qed.

(** X16.  [first_token] keeps the first whitespace-delimited token of a
    description and discards the rest: leading whitespace is skipped and
    a token of ASCII characters ends at the next whitespace character or
    at the end; a description of whitespace only (or empty) and NaN give
    NaN; a token is never empty and holds no whitespace. *)
Theorem first_token_spec :
  (∀ ws t rest, all_space ws = true → t ≠ "" → ascii_text t = true →
     no_space t = true →
     (rest = "" ∨ ∃ c r, rest = String c r ∧ is_space c = true) →
     first_token (Str (ws +:+ t +:+ rest)) = Str t) ∧
  (∀ ws, all_space ws = true → first_token (Str ws) = NaN) ∧
  first_token NaN = NaN ∧
  (∀ x t, first_token x = Str t → t ≠ "" ∧ no_space t = true).
Proof.
  split; [|split; [|split; [done|]]].
  - intros ws t rest Hws Ht _ Hns Hrest. unfold first_token.
    rewrite split_ws_skip, split_ws_take, append_nil by done.
    apply String.eqb_neq in Ht.
    destruct Hrest as [-> | (c & r & -> & Hc)]; cbn [split_ws].
    + by rewrite Ht.
    + by rewrite Hc, Ht.
  - intros ws Hws. unfold first_token.
    by rewrite <-(append_nil_r ws), split_ws_skip.
  - intros [|s] t; [done|]. unfold first_token.
    pose proof (split_ws_tokens "" s eq_refl) as H.
    destruct (split_ws "" s) as [|t' l]; [done|]. intros [= <-].
    by inversion H.
Qed.

Lemma first_token_spec_witness :
  first_token (Str (" " +:+ "AAA" +:+ " mod1")) = Str "AAA" ∧
  first_token (Str "  ") = NaN.
Proof.
  destruct first_token_spec as (Htok & Hblank & _).
  split.
  - apply Htok; [reflexivity | discriminate | reflexivity | reflexivity |].
    right. exists " "%char, "mod1". split; reflexivity.
  - apply Hblank. reflexivity.
Defined.

Lemma first_token_token x t :
  first_token x = Str t → t ≠ "" ∧ no_space t = true.
Proof.
  destruct x as [|s]; [done|]. unfold first_token.
  pose proof (split_ws_tokens "" s eq_refl) as H.
  destruct (split_ws "" s) as [|t' l]; [done|]. intros [= <-]. by inversion H.
Qed.

Lemma cell_at_loaded_cells pos i g r :
  i < length pos →
  cell_at i (loaded_cells pos i g r) = g (cell_at i (project pos r)).
Proof.
  intros Hi. apply cell_at_lookup. unfold loaded_cells.
  apply list_lookup_insert_eq. unfold project. by rewrite length_map.
Qed.

(** X17.  In a table loaded in IEDB mode every [peptide_sequence] cell is
    a single token: a non-empty string without whitespace. *)
Theorem loaded_peptides_are_tokens fs path cd df :
  (generate_df fs path cd true).2 = Ok df →
  ∃ i, index_of "peptide_sequence" (columns df) = Some i ∧
       ∀ r, r ∈ rows df →
            ∃ t, cell_at i r.2 = Str t ∧ t ≠ "" ∧ no_space t = true.
Proof.
  intros (f & i & _ & _ & Hc & Hi & Hrows)%generate_df_table. cbn zeta in *.
  exists i. split; [done|]. intros r Hr. rewrite Hrows in Hr.
  apply label_rows_elem, list_elem_of_In, filter_In in Hr as [Hr Hna].
  apply in_map_iff in Hr as (rec & Hrec & _).
  assert (i < length (kept_positions (header f) (usecols_of cd true))) as Hlt.
  { apply index_of_lt in Hi. by rewrite Hc, !length_map in Hi. }
  assert (notna (cell_at i r.2) = true) as Hcell.
  { apply cell_at_notna; [|done]. by rewrite <-Hrec, loaded_cells_length. }
  rewrite <-Hrec in *. rewrite cell_at_loaded_cells in * by done.
  destruct (first_token _) as [|t] eqn:E; [done|].
  exists t. split; [done|]. by eapply first_token_token.
Qed.

Lemma loaded_peptides_are_tokens_witness :
  ∃ i, index_of "peptide_sequence"
         ["peptide_sequence"; "uniprot_id"; "Category"] = Some i ∧
       ∀ r, r ∈ [ (0, [Str "AAA"; Str "http://x/uniprot/P12345"; Str "Tcell"]);
                  (1, [Str "BBB"; Str "http://x/uniprot/P12345"; Str "Bcell"]) ] →
            ∃ t, cell_at i r.2 = Str t ∧ t ≠ "" ∧ no_space t = true.
Proof.
  apply (loaded_peptides_are_tokens fs0 "iedb.csv" (Some conds0)
           (mkDataFrame ["peptide_sequence"; "uniprot_id"; "Category"]
              [ (0, [Str "AAA"; Str "http://x/uniprot/P12345"; Str "Tcell"]);
                (1, [Str "BBB"; Str "http://x/uniprot/P12345"; Str "Bcell"]) ])).
  reflexivity.
Defined.

(** * Accessions through the pipeline *)

Lemma protein_code_suffix a w :
  no_slash w = true → protein_code (Str (a +:+ String "/" w)) = Str w.
Proof.
  intros Hw. unfold protein_code, str_last.
  by rewrite split_on_last_app, split_on_whole.
Qed.

Lemma all_word_no_slash w : all_word w = true → no_slash w = true.
Proof.
  induction w as [|c w IH]; [done|]. cbn [all_word no_slash].
  intros [Hc Hw]%andb_prop. rewrite IH by done.
  destruct (Ascii.eqb_spec c "/") as [->|_]; [done | done].
Qed.

Lemma re_sub_app_nonword tok a c r :
  is_word c = false →
  re_sub tok (a +:+ String c r) = re_sub tok a +:+ String c (re_sub "" r).
Proof.
  intros Hc. revert tok; induction a as [|x a IH]; intros tok.
  - rewrite append_nil. cbn [re_sub]. by rewrite Hc.
  - rewrite append_cons. cbn [re_sub]. destruct (is_word x); [apply IH|].
    by rewrite IH, append_assoc, append_cons.
Qed.

(** X18.  Wrapping an accession and cutting the identifier down again
    gives the accession back: the protein code of a rewritten bare
    accession (ASCII word characters) is the accession, and the protein
    code of any rewritten value that ends in such a token, after an
    ASCII character that is not a word character, is that token. *)
Theorem accession_round_trip :
  (∀ w, w ≠ "" → all_word w = true →
        protein_code (replace_regex (Str w)) = Str w) ∧
  (∀ a c w, ascii_char c = true → is_word c = false →
        w ≠ "" → all_word w = true →
        protein_code (replace_regex (Str (a +:+ String c w))) = Str w).
Proof.
  assert (∀ w, w ≠ "" → all_word w = true →
            re_sub "" w = "http://www.uniprot.org/uniprot" +:+ String "/" w)
    as Hwrap.
  { intros w Hne Hw. rewrite re_sub_word, append_nil by done.
    unfold expand. by destruct w. }
  split.
  - intros w Hne Hw. cbn [replace_regex]. rewrite Hwrap by done.
    by apply protein_code_suffix, all_word_no_slash.
  - intros a c w _ Hc Hne Hw. cbn [replace_regex].
    rewrite re_sub_app_nonword, (Hwrap w) by done.
    assert (∀ x p s, x +:+ String c (p +:+ s) = (x +:+ String c p) +:+ s) as ->
      by (intros; by rewrite append_assoc, append_cons).
    by apply protein_code_suffix, all_word_no_slash.
Qed.

Lemma accession_round_trip_witness :
  protein_code (replace_regex (Str "P99999")) = Str "P99999" ∧
  protein_code
    (replace_regex (Str ("http://www.uniprot.org/uniprot" +:+ String "/" "P99999")))
  = Str "P99999".
Proof.
  destruct accession_round_trip as [Hbare Hlast].
  split; [apply Hbare | apply Hlast]; (reflexivity || discriminate).
Defined.








(** * Traces *)

Lemma io_bind_fst {A B : Type} (m : io A) (f : A → io B) :
  (io_bind m f).1 =
  m.1 ++ match m.2 with Ok a => (f a).1 | Raise _ => [] end.
Proof.
  destruct m as [t [a|e]]; cbn; [by destruct (f a) | by rewrite app_nil_r].
Qed.

Lemma reads_app t1 t2 : reads (t1 ++ t2) = reads t1 ++ reads t2.
Proof. unfold reads. apply flat_map_app. Qed.

Lemma generate_df_reads fs path cd iedb :
  reads (generate_df fs path cd iedb).1 =
  if iedb then match cd with Some _ => [path] | None => [] end else [path].
Proof.
  unfold generate_df. rewrite io_bind_fst, reads_app.
  destruct iedb.
  - rewrite io_bind_fst. cbn [lift fst snd]. destruct cd as [d|]; cbn [dict_keys].
    + rewrite io_bind_fst, !reads_app. cbn [read_csv fst app reads flat_map].
      rewrite !io_bind_snd. cbn [lift snd].
      repeat case_match; cbn; done.
    + done.
  - rewrite io_bind_fst, !reads_app. cbn [read_csv fst app reads flat_map].
    rewrite !io_bind_snd. cbn [lift snd].
    repeat case_match; cbn; done.
Qed.

(** X20.  An extraction reads no file but [input_file_path], and reads it
    once; with [iedb=True] and no conditions dictionary it reads nothing.
    The same holds of the loader alone. *)
Theorem extraction_reads_its_file_once fs path cd iedb :
  reads (extract_peptide_data fs path cd iedb).1 =
    (if iedb then match cd with Some _ => [path] | None => [] end else [path]) ∧
  reads (generate_df fs path cd iedb).1 =
    (if iedb then match cd with Some _ => [path] | None => [] end else [path]).
Proof.
  split; [|apply generate_df_reads].
  unfold extract_peptide_data. rewrite io_bind_fst, reads_app.
  assert (∀ r : result DataFrame,
    reads match r with
          | Ok a => (print "---> Creating the dictionary...";;;
                     data <~ lift (create_dictionary a);; io_ret data)%io.1
          | Raise _ => []
          end = []) as Htail.
  { intros [a|e]; [|done]. rewrite io_bind_fst, reads_app. cbn [print fst snd].
    rewrite io_bind_fst. cbn [lift fst snd]. by destruct (create_dictionary a). }
  rewrite Htail, app_nil_r. destruct iedb.
  - rewrite io_bind_fst, reads_app. cbn [print fst snd reads flat_map app].
    rewrite io_bind_fst, reads_app, generate_df_reads.
    destruct (generate_df fs path cd true).2 as [df|e]; [|by rewrite app_nil_r].
    rewrite io_bind_fst. cbn [print lift fst snd reads flat_map app].
    by rewrite app_nil_r.
  - rewrite io_bind_fst, reads_app. cbn [print fst snd reads flat_map app].
    fold (reads (generate_df fs path None false).1).
    apply generate_df_reads.
Qed.

(** * Further properties of the Merger *)

(** X21.  Merging is associative and idempotent on the maps it returns:
    merging three maps gives the same map however the two merges are
    nested, and merging a map with itself gives it back. *)
Theorem merge_peptide_data_assoc (a b c : PeptideMap) :
  (∃ ab bc abc,
     (merge_peptide_data a b).2 = Ok ab ∧
     (merge_peptide_data b c).2 = Ok bc ∧
     (merge_peptide_data ab c).2 = Ok abc ∧
     (merge_peptide_data a bc).2 = Ok abc) ∧
  (merge_peptide_data a a).2 = Ok a.
Proof.
  unfold merge_peptide_data; cbn. split.
  - exists (b ∪ a), (c ∪ b), (c ∪ (b ∪ a)). repeat split.
    by rewrite (assoc_L (∪)).
  - by rewrite (idemp_L (∪)).
Qed.

(** * Errors of the Table Loader *)

Lemma forallb_str_mem_false (cols hdr : list string) (k : string) :
  k ∈ cols → k ∉ hdr → forallb (λ c, str_mem c hdr) cols = false.
Proof.
  intros Hk Hn. apply not_true_is_false. rewrite forallb_forall.
  intros H. apply Hn, str_mem_spec, H. by apply list_elem_of_In.
Qed.

(** X22.  The loader fails with [FileNotFoundError] when the path names
    no file.  On a well-formed file it fails, in IEDB mode, with the
    usecols error when a key of the conditions dictionary is not a
    column of the file, and with [KeyError] for [peptide_sequence] when
    every key is a column but none is [Description] or
    [peptide_sequence]; in generic mode it fails with [KeyError] for
    [uniprot_id] when the file has no such column. *)
Theorem loader_errors fs path :
  (∀ cd iedb, (iedb = false ∨ cd ≠ None) → fs path = None →
     (generate_df fs path cd iedb).2 = Raise (FileNotFoundError path)) ∧
  (∀ C f k, fs path = Some f → well_formed f = true →
     k ∈ map fst C → k ∉ header f →
     (generate_df fs path (Some C) true).2 = Raise UsecolsError) ∧
  (∀ C f, fs path = Some f → well_formed f = true →
     (∀ k, k ∈ map fst C → k ∈ header f) →
     "Description" ∉ map fst C → "peptide_sequence" ∉ map fst C →
     (generate_df fs path (Some C) true).2
       = Raise (KeyError "peptide_sequence")) ∧
  (∀ cd f, fs path = Some f → well_formed f = true →
     "uniprot_id" ∉ header f →
     (generate_df fs path cd false).2 = Raise (KeyError "uniprot_id")).
Proof.
  split; [|split; [|split]].
  - intros cd iedb Hmode Hf. rewrite generate_df_value. unfold read_csv.
    cbn [snd]. rewrite Hf. destruct iedb; [|done].
    destruct cd as [C|]; [done | by destruct Hmode].
  - intros C f k Hf _ Hk Hn. rewrite generate_df_value. unfold read_csv.
    cbn [snd dict_keys]. rewrite bind_Ok, Hf.
    by rewrite (forallb_str_mem_false _ _ k).
  - intros C f Hf _ Hall Hd Hp. rewrite generate_df_value. unfold read_csv.
    cbn [snd dict_keys]. rewrite bind_Ok, Hf.
    assert (forallb (λ c, str_mem c (header f)) (map fst C) = true) as ->.
    { apply forallb_forall. intros k Hk%list_elem_of_In.
      by apply str_mem_spec, Hall. }
    rewrite bind_Ok. unfold update_column. cbn [rename columns].
    destruct (index_of "peptide_sequence" _) as [i|] eqn:E; [|done].
    apply index_of_elem, list_elem_of_In, in_map_iff in E as (h & E & Hh).
    apply kept_header_elem in Hh as [Hh _].
    apply rename_column_inv in E as [-> | ->]; done.
  - intros cd f Hf _ Hn. rewrite generate_df_value. unfold read_csv.
    cbn [snd]. rewrite Hf, bind_Ok. unfold update_column. cbn [columns].
    cbn [kept_positions]. rewrite header_positions.
    by apply index_of_None in Hn as ->.
Qed.

Lemma loader_errors_witness :
  (generate_df fs0 "missing.csv" None false).2
    = Raise (FileNotFoundError "missing.csv") ∧
  (generate_df fs0 "iedb.csv" (Some [("Host", None)]) true).2
    = Raise UsecolsError ∧
  (generate_df fs0 "iedb.csv" (Some [("Category", None)]) true).2
    = Raise (KeyError "peptide_sequence").
Proof.
  destruct (loader_errors fs0 "missing.csv") as (Hmissing & _).
  destruct (loader_errors fs0 "iedb.csv") as (_ & Hcols & Hkey & _).
  assert (∀ (x : string) (l : list string),
            forallb (λ y, negb (String.eqb x y)) l = true → x ∉ l) as Hnot.
  { intros x l H Hx%list_elem_of_In. rewrite forallb_forall in H.
    specialize (H x Hx). by rewrite String.eqb_refl in H. }
  split; [|split].
  - apply Hmissing; [by left | reflexivity].
  - eapply (Hcols _ _ "Host");
      [reflexivity | reflexivity | by left | by apply Hnot].
  - eapply Hkey; [reflexivity | reflexivity | | by apply Hnot | by apply Hnot].
    intros k [->|Hk%elem_of_nil]%elem_of_cons; [|done].
    cbn. do 3 right. by left.
Defined.



(** * The Table Loader: missing values *)




